(** * ib.opt.future: blocking getters over connection callbacks

    A shallow embedding of [src/ib/opt/future.py] (classes [Future],
    [FutureFactory], [TimeoutException]) and the properties of its wait
    policy, its listener life cycle and its factory.

    Conventions of the embedding.
    - Python objects live in a store: a [Ref] is the identity of a [Future]
      object, and the bound method [f.notify] that the code hands to the
      connection is identified with the [Ref] of [f] (two bound methods of
      one object compare equal in Python).
    - Durations and clock readings ([time()], [timeout], [minwait],
      [sleeptime]) are integers counting microseconds; the code only
      subtracts and compares them.
    - The producer thread and the clock are the environment of a blocking
      getter: a [Schedule] lists, sleep after sleep, which messages the
      producer hands to [notify] and what [time()] reads afterwards.  A
      schedule is finite; a getter that is still inside [sleep] when the
      schedule ends is [Blocked]. *)

From Stdlib Require Import ZArith Lia String List.
From stdpp Require Import base list strings.

Local Open Scope Z_scope.

(** Identity of a Python object in the store. *)
Abbreviation Ref := nat (only parsing).

(** Event-type identifiers are [str] names. *)
Abbreviation EventType := string (only parsing).

(** The [msgTypes] argument of the factory: one [str], or a sequence. *)
Inductive MsgTypes :=
| OneType (t : EventType)
| ManyTypes (ts : list EventType).

(** [msgTypes if type(msgTypes) != str else [msgTypes]] *)
Definition msgTypes_iter (msgTypes : MsgTypes) : list EventType :=
  match msgTypes with
  | ManyTypes ts => ts
  | OneType t => [t]
  end.

(** Exceptions.  [SleepError] is what [time.sleep] raises on a negative
    argument; [NoSuchObject] stands for a method call through a reference
    that denotes no object, which Python cannot express; [RequestError]
    is whatever the caller's request function raises. *)
Inductive Exn :=
| AssertionError
| TimeoutException
| SleepError
| IndexError
| NotImplementedError
| NoSuchObject
| RequestError (what : string).

(** ** The connection *)

Module Connection.

(** Modelled from the spec: the connection object ([ib.opt.connection])
    is not part of the sources at hand.  Its registration table is the
    sequence of (event type, callback) associations, in registration
    order. *)
Record t := mk { registrations : list (EventType * Ref) }.

(** Modelled from the spec: [register(callback, eventTypeIdentifier)],
    which is missing from the sources, associates the callback with the
    identifier. *)
Definition register (callback : Ref) (ty : EventType) (c : t) : t :=
  mk (registrations c ++ [(ty, callback)]).

(** Modelled from the spec: [unregisterAll(callback)], which is missing
    from the sources, removes every association of the callback, across
    all identifiers. *)
Definition unregisterAll (callback : Ref) (c : t) : t :=
  mk (List.filter (fun p => negb (Nat.eqb (snd p) callback)) (registrations c)).

(** The identifiers a callback is registered under, one per association. *)
Definition registered_under (callback : Ref) (c : t) : list EventType :=
  List.map fst (List.filter (fun p => Nat.eqb (snd p) callback) (registrations c)).

End Connection.

Section Model.

(** Messages are opaque to the future. *)
Context {msg : Type}.

(** ** The [Future] object *)

(** The attributes [__init__] sets, and the two the factory rebinds on
    the instance ([filter], [name]).  The attribute [con] is the one
    connection of the [World] below.  [name] holds the [msgTypes] the
    factory's lambda closes over; [None] is the class's own [name], which
    raises [NotImplementedError]. *)
Record Future := mkFuture {
  messages : list msg;
  timeout : Z;
  minwait : Z;
  sleeptime : Z;
  autoclose : bool;
  filter : msg -> bool;
  name : option MsgTypes
}.

Definition set_messages (f : Future) (ms : list msg) : Future :=
  mkFuture ms (timeout f) (minwait f) (sleeptime f) (autoclose f) (filter f) (name f).

Definition set_filter (f : Future) (p : msg -> bool) : Future :=
  mkFuture (messages f) (timeout f) (minwait f) (sleeptime f) (autoclose f) p (name f).

Definition set_name (f : Future) (n : MsgTypes) : Future :=
  mkFuture (messages f) (timeout f) (minwait f) (sleeptime f) (autoclose f) (filter f) (Some n).

(** [Future.filter] of the class: every message is kept. *)
Definition default_filter (m : msg) : bool := true.

(** The keyword arguments of [__init__], each optional. *)
Record KeyValues := mkKeyValues {
  kw_timeout : option Z;
  kw_minwait : option Z;
  kw_sleeptime : option Z;
  kw_autoclose : option bool
}.

(** Defaults of [__init__]: 5.0 s, 0.1 s, 0.1 s, [True]. *)
Definition arg_timeout (kw : KeyValues) : Z := default 5000000 (kw_timeout kw).
Definition arg_minwait (kw : KeyValues) : Z := default 100000 (kw_minwait kw).
Definition arg_sleeptime (kw : KeyValues) : Z := default 100000 (kw_sleeptime kw).
Definition arg_autoclose (kw : KeyValues) : bool := default true (kw_autoclose kw).

(** The object [__init__] leaves behind when its assertion holds. *)
Definition fresh_future (kw : KeyValues) : Future :=
  mkFuture [] (arg_timeout kw) (arg_minwait kw) (arg_sleeptime kw)
           (arg_autoclose kw) default_filter None.

(** [Future.notify], on the object:
    [if not self.filter(msg): return] then [self.messages.append(msg)]. *)
Definition notify_obj (m : msg) (f : Future) : Future :=
  if negb (filter f m) then f
  else set_messages f (messages f ++ [m]).

(** [not self.messages] *)
Definition no_messages (f : Future) : bool :=
  match messages f with
  | [] => true
  | _ :: _ => false
  end.

(** ** The world: connection, object store, wall clock *)

Record World := mkWorld {
  con : Connection.t;
  heap : list Future;
  now : Z
}.

Definition set_con (w : World) (c : Connection.t) : World :=
  mkWorld c (heap w) (now w).

Definition set_heap (w : World) (h : list Future) : World :=
  mkWorld (con w) h (now w).

Definition set_now (w : World) (t : Z) : World :=
  mkWorld (con w) (heap w) t.

(** Outcome of a call: a value, an exception, or still blocked in
    [sleep] when the schedule ended; each with the world it leaves. *)
Inductive result (A : Type) :=
| Ok (a : A) (w : World)
| Raise (e : Exn) (w : World)
| Blocked (w : World).

Global Arguments Ok {A} a w.
Global Arguments Raise {A} e w.
Global Arguments Blocked {A} w.

Definition M (A : Type) := World -> result A.

Definition ret {A} (a : A) : M A := fun w => Ok a w.

Definition bind {A B} (c : M A) (k : A -> M B) : M B :=
  fun w =>
    match c w with
    | Ok a w' => k a w'
    | Raise e w' => Raise e w'
    | Blocked w' => Blocked w'
    end.

Definition raise {A} (e : Exn) : M A := fun w => Raise e w.

(** Read an object's attributes through its reference. *)
Definition get_obj (self : Ref) : M Future :=
  fun w =>
    match heap w !! self with
    | Some f => Ok f w
    | None => Raise NoSuchObject w
    end.

(** Mutate an object in place. *)
Definition update_obj (self : Ref) (g : Future -> Future) : M unit :=
  fun w => Ok tt (set_heap w (alter g self (heap w))).

(** The world an action leaves, whatever its outcome. *)
Definition world_of {A} (r : result A) : World :=
  match r with
  | Ok _ w => w
  | Raise _ w => w
  | Blocked w => w
  end.

End Model.

Arguments Future : clear implicits.
Arguments KeyValues : clear implicits.
Arguments World : clear implicits.
Arguments result : clear implicits.
Arguments M : clear implicits.

Notation "x <~ c ;; k" := (bind c (fun x => k))
  (at level 100, c at next level, right associativity).
Notation "c ;;; k" := (bind c (fun _ => k))
  (at level 100, right associativity).

(** ** The environment of a blocking getter *)

(** What happens during one [sleep(self.sleeptime)]: the producer thread
    hands [arrivals] to [notify], in this order, and when the sleep is over
    [time()] reads [clock]. *)
Record Tick (msg : Type) := mkTick {
  arrivals : list msg;
  clock : Z
}.

Arguments mkTick {msg} arrivals clock.
Arguments arrivals {msg} t.
Arguments clock {msg} t.

(** The sleeps of one getter call, and the messages the producer still
    hands over between the end of the wait loop and the selection. *)
Record Schedule (msg : Type) := mkSchedule {
  ticks : list (Tick msg);
  late : list msg
}.

Arguments mkSchedule {msg} ticks late.
Arguments ticks {msg} s.
Arguments late {msg} s.

Section Methods.

Context {msg : Type}.

(** *** [Future.__init__] *)

(** [assert minwait < timeout], then the attribute assignments.  The new
    object takes the next free reference. *)
Definition Future_init (kw : KeyValues) : M msg Ref :=
  fun w =>
    if arg_minwait kw <? arg_timeout kw
    then Ok (length (heap w)) (set_heap w (heap w ++ [fresh_future kw]))
    else Raise AssertionError w.

(** *** [Future.notify] *)

(** A call [f.notify(msg)] by the producer, on the world. *)
Definition notify (self : Ref) (m : msg) (w : World msg) : World msg :=
  set_heap w (alter (notify_obj m) self (heap w)).

(** Several calls, first to last. *)
Definition notify_all (self : Ref) (ms : list msg) (w : World msg) : World msg :=
  fold_left (fun w' m => notify self m w') ms w.

(** *** [Future.close] *)

(** [self.con.unregisterAll(self.notify)] *)
Definition close (self : Ref) : M msg unit :=
  fun w => Ok tt (set_con w (Connection.unregisterAll self (con w))).

(** *** [Future._get_select] *)

(** One [sleep(self.sleeptime)] as the environment runs it. *)
Definition sleep (self : Ref) (tk : Tick msg) (w : World msg) : World msg :=
  set_now (notify_all self (arrivals tk) w) (clock tk).

(** The [while] loop.  [elapsedTime] is the loop variable of the code;
    each iteration that neither raises nor leaves the loop sleeps once
    and reads the clock. *)
Fixpoint wait_loop (self : Ref) (startTime elapsedTime : Z)
         (tks : list (Tick msg)) : M msg unit :=
  fun w =>
    match heap w !! self with
    | None => Raise NoSuchObject w
    | Some f =>
      if no_messages f || (elapsedTime <? minwait f) then
        if timeout f <? elapsedTime then Raise TimeoutException w
        else if sleeptime f <? 0 then Raise SleepError w
        else
          match tks with
          | [] => Blocked w
          | tk :: tks' =>
            let w' := sleep self tk w in
            wait_loop self startTime (now w' - startTime) tks' w'
          end
      else Ok tt w
    end.

(** What a getter returns: one message, or the buffer.  [VList] carries
    the contents of [self.messages] at the time of the selection; in Python
    the value is the list object itself, which later [notify] calls go on
    appending to. *)
Inductive value :=
| VMsg (m : msg)
| VList (ms : list msg).

(** Apply the caller's selection to [self.messages]. *)
Definition apply_select (select : list msg -> Exn + value) (self : Ref) : M msg value :=
  f <~ get_obj self ;;
  match select (messages f) with
  | inl e => raise e
  | inr v => ret v
  end.

(** [_get_select]: the loop, [close] if [autoclose] is set, the selection.
    [startTime = time()] reads the clock of the world.  Between the end of
    the loop and the selection the producer may still call [notify] with
    [late sched]. *)
Definition _get_select (select : list msg -> Exn + value) (self : Ref)
           (sched : Schedule msg) : M msg value :=
  fun w =>
    let startTime := now w in
    (wait_loop self startTime 0 (ticks sched) ;;;
     (fun w' => Ok tt (notify_all self (late sched) w')) ;;;
     f <~ get_obj self ;;
     (if autoclose f then close self else ret tt) ;;;
     apply_select select self) w.

(** [lambda x: x[0] if first_not_recent else x[-1]] *)
Definition select_one (first_not_recent : bool) (x : list msg) : Exn + value :=
  if first_not_recent then
    match x with
    | m :: _ => inr (VMsg m)
    | [] => inl IndexError
    end
  else
    match last x with
    | Some m => inr (VMsg m)
    | None => inl IndexError
    end.

(** [lambda x: x] *)
Definition select_all (x : list msg) : Exn + value := inr (VList x).

Definition get (first_not_recent : bool) : Ref -> Schedule msg -> M msg value :=
  _get_select (select_one first_not_recent).

Definition get_first : Ref -> Schedule msg -> M msg value := get true.

Definition get_last : Ref -> Schedule msg -> M msg value := get false.

Definition get_all : Ref -> Schedule msg -> M msg value := _get_select select_all.

(** *** [FutureFactory] *)

(** [self.con.register(f.notify, t)] *)
Definition con_register (f : Ref) (t : EventType) : M msg unit :=
  fun w => Ok tt (set_con w (Connection.register f t (con w))).

(** The [for] loop over the event types. *)
Fixpoint register_each (f : Ref) (ts : list EventType) : M msg unit :=
  match ts with
  | [] => ret tt
  | t :: ts' => con_register f t ;;; register_each f ts'
  end.

(** [create_filtered].  [requestFct] is the caller's request function, an
    arbitrary action on the world; its return value is dropped. *)
Definition create_filtered {A : Type} (msgTypes : MsgTypes)
           (filter : option (msg -> bool))
           (requestFct : A -> M msg unit) (reqValues : A)
           (keyvalues : KeyValues) : M msg Ref :=
  f <~ Future_init keyvalues ;;
  update_obj f (fun o => set_name o msgTypes) ;;;
  match filter with
  | Some p => update_obj f (fun o => set_filter o p)
  | None => ret tt
  end ;;;
  register_each f (msgTypes_iter msgTypes) ;;;
  requestFct reqValues ;;;
  ret f.

(** [create]: [create_filtered] with [None] for the filter. *)
Definition create {A : Type} (msgTypes : MsgTypes)
           (requestFct : A -> M msg unit) (reqValues : A)
           (keyvalues : KeyValues) : M msg Ref :=
  create_filtered msgTypes None requestFct reqValues keyvalues.

End Methods.

Arguments value : clear implicits.

(** ** Vocabulary of the statements *)

Section Observations.

Context {msg : Type}.
Implicit Types (f : Future msg) (w : World msg) (self : Ref).

(** The messages of [ms] that the filter of [f] keeps, in order. *)
Definition accepted f (ms : list msg) : list msg :=
  List.filter (filter f) ms.

(** [f] after the producer has handed it [ms]. *)
Definition receive (ms : list msg) f : Future msg :=
  set_messages f (messages f ++ accepted f ms).

(** The world after the sleeps [tks], run one after the other. *)
Definition run_ticks self (tks : list (Tick msg)) w : World msg :=
  fold_left (fun w' tk => sleep self tk w') tks w.

(** Everything the producer handed over during [tks]. *)
Definition arrived (tks : list (Tick msg)) : list msg :=
  concat (List.map arrivals tks).

(** The three blocking getters of the class. *)
Inductive Getter := GetFirst | GetLast | GetAll.

Definition call (g : Getter) : Ref -> Schedule msg -> M msg (value msg) :=
  match g with
  | GetFirst => get_first
  | GetLast => get_last
  | GetAll => get_all
  end.

(** The selection each getter hands to [_get_select]. *)
Definition selection (g : Getter) : list msg -> Exn + value msg :=
  match g with
  | GetFirst => select_one true
  | GetLast => select_one false
  | GetAll => select_all
  end.

(** The sleeps of [tks] up to and including the first after which the
    clock reads more than [timeout] past [start]; all of [tks] if there is
    none. *)
Fixpoint until_late (start timeout : Z) (tks : list (Tick msg)) : list (Tick msg) :=
  match tks with
  | [] => []
  | tk :: tks' =>
    if timeout <? clock tk - start then [tk]
    else tk :: until_late start timeout tks'
  end.

(** A clock on which every sleep of [tks] lets at least [step] pass,
    starting from the reading [from]. *)
Fixpoint steady (step from : Z) (tks : list (Tick msg)) : Prop :=
  match tks with
  | [] => True
  | tk :: tks' => from + step <= clock tk /\ steady step (clock tk) tks'
  end.

(** The world a getter leaves on success: the producer's late messages are
    in the buffer, and [close] has run if [autoclose] is set. *)
Definition after_wait self (autoclose_set : bool) (late_ms : list msg) w : World msg :=
  let w2 := notify_all self late_ms w in
  if autoclose_set
  then set_con w2 (Connection.unregisterAll self (con w2))
  else w2.

(** A call's outcome without the world it leaves. *)
Inductive outcome (A : Type) :=
| Returned (a : A)
| Raised (e : Exn)
| StillBlocked.

Definition outcome_of {A} (r : result msg A) : outcome A :=
  match r with
  | Ok a _ => Returned A a
  | Raise e _ => Raised A e
  | Blocked _ => StillBlocked A
  end.

(** The object the factory has built when it starts to register it. *)
Definition built_future (msgTypes : MsgTypes) (filter : option (msg -> bool))
           (kw : KeyValues) : Future msg :=
  mkFuture [] (arg_timeout kw) (arg_minwait kw) (arg_sleeptime kw)
           (arg_autoclose kw) (default default_filter filter) (Some msgTypes).

(** The world in which the factory calls the request function: the new
    object is in the store and each of its registrations in the table. *)
Definition registered_world (msgTypes : MsgTypes) (filter : option (msg -> bool))
           (kw : KeyValues) w : World msg :=
  mkWorld
    (Connection.mk (Connection.registrations (con w) ++
                    List.map (fun t => (t, length (heap w))) (msgTypes_iter msgTypes)))
    (heap w ++ [built_future msgTypes filter kw])
    (now w).

End Observations.

(** ** A running scenario

    One second of timeout, a settle time of 0.2 s, polls every 0.05 s,
    [autoclose] left at its default; the request function does nothing, or
    raises. *)

Definition ex_keyvalues : KeyValues :=
  mkKeyValues (Some 1000000) (Some 200000) (Some 50000) None.

Definition ex_types : MsgTypes := ManyTypes ["tickPrice"; "tickSize"]%string.

Definition ex_empty_world : World string := mkWorld (Connection.mk []) [] 0.

Definition ex_request : unit -> M string unit := fun _ => ret tt.

Definition ex_failing_request : unit -> M string unit :=
  fun _ => raise (RequestError "not connected").

(** The world after [create(["tickPrice", "tickSize"], request)], and the
    listener it holds at reference 0. *)
Definition ex_world : World string :=
  world_of (create ex_types ex_request tt ex_keyvalues ex_empty_world).

Definition ex_listener : Future string :=
  built_future ex_types None ex_keyvalues.

(** A filter that keeps the messages that start with "X", and the world
    after [create_filtered] with it. *)
Definition only_X (m : string) : bool := String.prefix "X" m.

Definition ex_filtered_world : World string :=
  world_of (create_filtered ex_types (Some only_X) ex_request tt ex_keyvalues
                            ex_empty_world).

Definition ex_filtered_listener : Future string :=
  built_future ex_types (Some only_X) ex_keyvalues.

(** "A" arrives 0.1 s after the call, "B" 0.05 s later, "C" after the
    settle time. *)
Definition ex_burst : Schedule string :=
  mkSchedule [mkTick [] 50000; mkTick ["A"%string] 100000;
              mkTick ["B"%string] 150000; mkTick [] 200000;
              mkTick ["C"%string] 250000] [].

(** "Y" and "X1" have arrived before the getter is called. *)
Definition ex_early : list string := ["Y"; "X1"]%string.

(** "Z" arrives during the second sleep and "X2" during the fourth. *)
Definition ex_mixed : Schedule string :=
  mkSchedule [mkTick [] 50000; mkTick ["Z"%string] 100000;
              mkTick [] 150000; mkTick ["X2"%string] 200000;
              mkTick ["X3"%string] 250000] [].

(** A listener with 0.3 s of timeout, 0.1 s of settle time and polls every
    0.1 s, registered under one event type. *)
Definition ex_short_keyvalues : KeyValues :=
  mkKeyValues (Some 300000) (Some 100000) None None.

Definition ex_short_world : World string :=
  world_of (create (OneType "nextValidId"%string) ex_request tt
                   ex_short_keyvalues ex_empty_world).

Definition ex_short_listener : Future string :=
  built_future (OneType "nextValidId"%string) None ex_short_keyvalues.

(** Nothing arrives; the clock reads 0.1 s, 0.2 s, then exactly 0.3 s. *)
Definition ex_silence_to_timeout : Schedule string :=
  mkSchedule [mkTick [] 100000; mkTick [] 200000; mkTick [] 300000] [].

(** The same, and one more sleep. *)
Definition ex_silence_past_timeout : Schedule string :=
  mkSchedule [mkTick [] 100000; mkTick [] 200000; mkTick [] 300000;
              mkTick [] 400000] [].

(** The same, but a message arrives during the sleep that follows the
    poll at 0.3 s. *)
Definition ex_message_after_timeout : Schedule string :=
  mkSchedule [mkTick [] 100000; mkTick [] 200000; mkTick [] 300000;
              mkTick ["A"%string] 400000] [].

(** ** The rest of the class *)

Section Remaining.

Context {msg : Type}.
Implicit Types (f : Future msg) (w : World msg) (self : Ref).

(** [Future.name]: the class's method raises [NotImplementedError]; the
    factory rebinds it on the instance to [lambda : str(msgTypes)].  The
    result here is the [msgTypes] whose [str] the lambda returns. *)
Definition Future_name self : M msg MsgTypes :=
  f <~ get_obj self ;;
  match name f with
  | Some msgTypes => ret msgTypes
  | None => raise NotImplementedError
  end.

(** What [__init__] asserts, for every object of the store. *)
Definition well_formed w : Prop :=
  Forall (fun f => minwait f < timeout f) (heap w).

(** What one getter returns out of a buffer. *)
Definition selected (g : Getter) (buffer : list msg) (v : value msg) : Prop :=
  match g with
  | GetFirst => exists m, v = VMsg m /\ head buffer = Some m
  | GetLast => exists m, v = VMsg m /\ last buffer = Some m
  | GetAll => v = VList buffer
  end.

(** The schedule [sched] on a clock that is [d] ahead. *)
Definition shift_schedule (d : Z) (sched : Schedule msg) : Schedule msg :=
  mkSchedule (List.map (fun tk => mkTick (arrivals tk) (clock tk + d)) (ticks sched))
             (late sched).

End Remaining.

(** A second listener, under another event type, made in [ex_world]. *)
Definition ex_two_listeners : World string :=
  world_of (create_filtered (OneType "orderStatus"%string) (Some only_X)
                            ex_request tt ex_short_keyvalues ex_world).

Definition ex_second_listener : Future string :=
  built_future (OneType "orderStatus"%string) (Some only_X) ex_short_keyvalues.

(** "A" arrives at once, nothing else; the clock moves by 0.1 s a sleep. *)
Definition ex_single : Schedule string :=
  mkSchedule [mkTick ["A"%string] 100000; mkTick [] 200000] [].

(** The same for a call made when the clock reads 0.2 s. *)
Definition ex_later : Schedule string := shift_schedule 200000 ex_single.

(** Nothing arrives and the clock moves by 0.05 s a sleep, 21 times. *)
Definition ex_long_silence : Schedule string :=
  mkSchedule (List.map (fun k => mkTick [] (50000 * Z.of_nat k)) (seq 1 21)) [].

(** * Properties *)

Section Buffer.

Context {msg : Type}.
Implicit Types (f : Future msg) (w : World msg) (self : Ref).

Lemma set_messages_same f : set_messages f (messages f) = f.
Proof. by destruct f. Qed.

Lemma accepted_app f ms1 ms2 :
  accepted f (ms1 ++ ms2) = accepted f ms1 ++ accepted f ms2.
Proof. apply List.filter_app. Qed.

Lemma receive_nil f : receive [] f = f.
Proof. unfold receive. cbn. rewrite app_nil_r. apply set_messages_same. Qed.

Lemma notify_obj_receive m f : notify_obj m f = receive [m] f.
Proof.
  unfold notify_obj, receive, accepted. cbn.
  destruct (filter f m); cbn; [done|].
  by rewrite app_nil_r, set_messages_same.
Qed.

Lemma receive_receive ms1 ms2 f :
  receive ms2 (receive ms1 f) = receive (ms1 ++ ms2) f.
Proof.
  unfold receive, accepted, set_messages. cbn.
  by rewrite List.filter_app, app_assoc.
Qed.

Lemma notify_all_cons self m ms w :
  notify_all self (m :: ms) w = notify_all self ms (notify self m w).
Proof. done. Qed.

Lemma notify_all_heap self ms w :
  heap (notify_all self ms w) = alter (receive ms) self (heap w).
Proof.
  revert w. induction ms as [|m ms IH]; intros w.
  - cbn. symmetry. apply list_alter_id, receive_nil.
  - rewrite notify_all_cons, IH. cbn. rewrite list_alter_alter_eq.
    apply list_alter_ext; [|done]. intros f _. cbn.
    by rewrite notify_obj_receive, receive_receive.
Qed.

Lemma notify_all_con self ms w : con (notify_all self ms w) = con w.
Proof. revert w. induction ms as [|m ms IH]; intros w; [done|]. by rewrite notify_all_cons, IH. Qed.

Lemma notify_all_now self ms w : now (notify_all self ms w) = now w.
Proof. revert w. induction ms as [|m ms IH]; intros w; [done|]. by rewrite notify_all_cons, IH. Qed.

Lemma notify_all_lookup self ms w f :
  heap w !! self = Some f →
  heap (notify_all self ms w) !! self = Some (receive ms f).
Proof. intros Hf. by rewrite notify_all_heap, list_lookup_alter_eq, Hf. Qed.

Lemma run_ticks_cons self tk tks w :
  run_ticks self (tk :: tks) w = run_ticks self tks (sleep self tk w).
Proof. done. Qed.

Lemma run_ticks_con self tks w : con (run_ticks self tks w) = con w.
Proof.
  revert w. induction tks as [|tk tks IH]; intros w; [done|].
  rewrite run_ticks_cons, IH. cbn. apply notify_all_con.
Qed.

Lemma run_ticks_heap self tks w :
  heap (run_ticks self tks w) = alter (receive (arrived tks)) self (heap w).
Proof.
  revert w. induction tks as [|tk tks IH]; intros w.
  - cbn. symmetry. apply list_alter_id, receive_nil.
  - rewrite run_ticks_cons, IH. cbn.
    rewrite notify_all_heap, list_alter_alter_eq.
    apply list_alter_ext; [|done]. intros f _. cbn.
    unfold arrived. cbn. by rewrite receive_receive.
Qed.

Lemma run_ticks_lookup self tks w f :
  heap w !! self = Some f →
  heap (run_ticks self tks w) !! self = Some (receive (arrived tks) f).
Proof. intros Hf. by rewrite run_ticks_heap, list_lookup_alter_eq, Hf. Qed.

End Buffer.

Section WaitLoop.

Context {msg : Type}.
Implicit Types (f : Future msg) (w : World msg) (self : Ref).
Implicit Types (tks : list (Tick msg)).

Lemma no_messages_true f : no_messages f = true ↔ messages f = [].
Proof. unfold no_messages. destruct (messages f); split; congruence. Qed.

Lemma no_messages_false f : no_messages f = false ↔ messages f ≠ [].
Proof. unfold no_messages. destruct (messages f); split; congruence. Qed.

(** The loop's test, as a proposition. *)
Lemma must_wait_iff f elapsed :
  no_messages f || (elapsed <? minwait f) = true ↔
  messages f = [] ∨ elapsed < minwait f.
Proof. rewrite orb_true_iff, no_messages_true, Z.ltb_lt. tauto. Qed.

Lemma sleep_lookup self tk w f :
  heap w !! self = Some f →
  heap (sleep self tk w) !! self = Some (receive (arrivals tk) f).
Proof. intros Hf. cbn. by apply notify_all_lookup. Qed.

Lemma sleep_now self tk w : now (sleep self tk w) = clock tk.
Proof. done. Qed.

(** The loop leaves at once when the buffer is non-empty and the settle
    time has passed, whatever the schedule still holds. *)
Lemma wait_loop_done self start elapsed tks w f :
  heap w !! self = Some f →
  messages f ≠ [] → minwait f ≤ elapsed →
  wait_loop self start elapsed tks w = Ok tt w.
Proof.
  intros Hf Hne Hmin.
  destruct tks; cbn; rewrite Hf;
    apply no_messages_false in Hne; rewrite Hne;
    (destruct (Z.ltb_spec elapsed (minwait f)); [lia|done]).
Qed.

(** One iteration that finds the test true. *)
Lemma wait_loop_step self start elapsed tks w f :
  heap w !! self = Some f →
  messages f = [] ∨ elapsed < minwait f →
  wait_loop self start elapsed tks w =
    if timeout f <? elapsed then Raise TimeoutException w
    else if sleeptime f <? 0 then Raise SleepError w
    else match tks with
         | [] => Blocked w
         | tk :: tks' =>
           wait_loop self start (clock tk - start) tks' (sleep self tk w)
         end.
Proof.
  intros Hf Hwait. apply must_wait_iff in Hwait.
  destruct tks; cbn; rewrite Hf, Hwait; done.
Qed.

Lemma receive_messages ms f :
  messages (receive ms f) = messages f ++ accepted f ms.
Proof. done. Qed.

(** What the loop has done when it stops: it slept through a prefix
    [used] of the schedule, and the way it stopped tells what the last
    test found. *)
Lemma wait_loop_inv self start tks : ∀ w f,
  heap w !! self = Some f →
  ∃ used rest, tks = used ++ rest ∧
    let w' := run_ticks self used w in
    let f' := receive (arrived used) f in
    let el := now w' - start in
    match wait_loop self start (now w - start) tks w with
    | Ok _ w'' => w'' = w' ∧ messages f' ≠ [] ∧ minwait f ≤ el
    | Raise e w'' =>
      w'' = w' ∧ (messages f' = [] ∨ el < minwait f) ∧
      ((e = TimeoutException ∧ timeout f < el) ∨
       (e = SleepError ∧ el ≤ timeout f ∧ sleeptime f < 0))
    | Blocked w'' =>
      w'' = w' ∧ rest = [] ∧ (messages f' = [] ∨ el < minwait f) ∧
      el ≤ timeout f ∧ 0 ≤ sleeptime f
    end.
Proof.
  induction tks as [|tk tks IH]; intros w f Hf.
  - exists [], []. split; [done|]. cbn zeta.
    change (run_ticks self [] w) with w.
    change (arrived []) with (@nil msg). rewrite receive_nil.
    destruct (decide (messages f = [] ∨ now w - start < minwait f)) as [Hw|Hw].
    + rewrite (wait_loop_step _ _ _ _ _ f) by done.
      destruct (Z.ltb_spec (timeout f) (now w - start)); [by auto|].
      destruct (Z.ltb_spec (sleeptime f) 0); [by auto 6|done].
    + rewrite (wait_loop_done _ _ _ _ _ f); [|done|tauto|lia].
      repeat split; [tauto|lia].
  - destruct (decide (messages f = [] ∨ now w - start < minwait f)) as [Hw|Hw].
    + rewrite (wait_loop_step _ _ _ _ _ f) by done.
      destruct (Z.ltb_spec (timeout f) (now w - start)).
      { exists [], (tk :: tks). split; [done|]. cbn zeta.
        change (run_ticks self [] w) with w.
        change (arrived []) with (@nil msg). rewrite receive_nil. by auto. }
      destruct (Z.ltb_spec (sleeptime f) 0).
      { exists [], (tk :: tks). split; [done|]. cbn zeta.
        change (run_ticks self [] w) with w.
        change (arrived []) with (@nil msg). rewrite receive_nil. by auto 6. }
      destruct (IH (sleep self tk w) (receive (arrivals tk) f))
        as (used & rest & -> & Hspec); [by apply sleep_lookup|].
      exists (tk :: used), rest. split; [done|].
      rewrite sleep_now in Hspec. cbn zeta in *.
      rewrite run_ticks_cons.
      replace (receive (arrived (tk :: used)) f)
        with (receive (arrived used) (receive (arrivals tk) f))
        by (rewrite receive_receive; done).
      exact Hspec.
    + exists [], (tk :: tks). split; [done|]. cbn zeta.
      change (run_ticks self [] w) with w.
      change (arrived []) with (@nil msg). rewrite receive_nil.
      rewrite (wait_loop_done _ _ _ _ _ f); [|done|tauto|lia].
      repeat split; [tauto|lia].
Qed.

End WaitLoop.

Section Getters.

Context {msg : Type}.
Implicit Types (f : Future msg) (w : World msg) (self : Ref).
Implicit Types (sched : Schedule msg) (select : list msg → Exn + value msg).

Lemma call_get_select (g : Getter) :
  call (msg:=msg) g = _get_select (selection g).
Proof. by destruct g. Qed.

(** A getter, once its loop is taken out. *)
Lemma get_select_unfold select self sched w :
  _get_select select self sched w =
    match wait_loop self (now w) 0 (ticks sched) w with
    | Ok _ w1 =>
      match heap w1 !! self with
      | None => Raise NoSuchObject (notify_all self (late sched) w1)
      | Some f1 =>
        match select (messages f1 ++ accepted f1 (late sched)) with
        | inl e => Raise e (after_wait self (autoclose f1) (late sched) w1)
        | inr v => Ok v (after_wait self (autoclose f1) (late sched) w1)
        end
      end
    | Raise e w1 => Raise e w1
    | Blocked w1 => Blocked w1
    end.
Proof.
  unfold _get_select, bind at 1.
  destruct (wait_loop self (now w) 0 (ticks sched) w) as [[] w1|e w1|w1]; [|done..].
  unfold bind at 1. unfold bind at 1, get_obj at 1.
  rewrite notify_all_heap, list_lookup_alter_eq.
  destruct (heap w1 !! self) as [f1|] eqn:Hf1; [|done]. cbn [fmap option_fmap option_map].
  assert (Hlook : ∀ b, heap (after_wait self b (late sched) w1) !! self
                       = Some (receive (late sched) f1)).
  { intros b. unfold after_wait.
    destruct b; cbn; by rewrite notify_all_heap, list_lookup_alter_eq, Hf1. }
  unfold bind, apply_select, get_obj, close, ret, bind.
  specialize (Hlook (autoclose f1)). unfold after_wait in *. cbn [autoclose receive set_messages].
  destruct (autoclose f1); rewrite Hlook; cbn [messages receive set_messages];
    by destruct (select _).
Qed.

(** What a getter has done when it stops.  [used] are the sleeps it went
    through; the first alternative of [Raise] is an exception of the loop,
    the second one of the selection. *)
Lemma get_select_inv select self sched w f :
  heap w !! self = Some f →
  ∃ used rest, ticks sched = used ++ rest ∧
    let w1 := run_ticks self used w in
    let f1 := receive (arrived used) f in
    let el := now w1 - now w in
    let buffer := messages f ++ accepted f (arrived used ++ late sched) in
    match _get_select select self sched w with
    | Ok v w' =>
      w' = after_wait self (autoclose f) (late sched) w1 ∧
      select buffer = inr v ∧ messages f1 ≠ [] ∧ minwait f ≤ el
    | Raise e w' =>
      (w' = w1 ∧ (messages f1 = [] ∨ el < minwait f) ∧
       ((e = TimeoutException ∧ timeout f < el) ∨
        (e = SleepError ∧ el ≤ timeout f ∧ sleeptime f < 0))) ∨
      (w' = after_wait self (autoclose f) (late sched) w1 ∧
       select buffer = inl e ∧ messages f1 ≠ [] ∧ minwait f ≤ el)
    | Blocked w' =>
      w' = w1 ∧ rest = [] ∧ (messages f1 = [] ∨ el < minwait f) ∧
      el ≤ timeout f ∧ 0 ≤ sleeptime f
    end.
Proof.
  intros Hf.
  destruct (wait_loop_inv self (now w) (ticks sched) w f Hf)
    as (used & rest & Hsplit & Hloop).
  exists used, rest. split; [done|]. cbn zeta in *.
  rewrite get_select_unfold.
  replace (now w - now w) with 0 in Hloop by lia.
  destruct (wait_loop self (now w) 0 (ticks sched) w) as [[] w1|e w1|w1]; [|by left|done].
  destruct Hloop as (-> & Hne & Hmin).
  rewrite (run_ticks_lookup _ _ _ f) by done.
  rewrite receive_messages. cbn [autoclose receive set_messages].
  change (accepted (receive (arrived used) f) (late sched))
    with (accepted f (late sched)).
  rewrite <- app_assoc, <- accepted_app.
  rewrite receive_messages in Hne.
  destruct (select _); [right|]; done.
Qed.

(** The selections of the three getters succeed on a non-empty buffer. *)
Lemma selection_nonempty (g : Getter) (x : list msg) :
  x ≠ [] →
  ∃ v, selection g x = inr v.
Proof.
  intros Hx. destruct g; cbn.
  - destruct x; [done|eauto].
  - destruct (last x) eqn:Hl; [eauto|]. by apply last_None in Hl.
  - eauto.
Qed.

End Getters.

Section Schedules.

Context {msg : Type}.
Implicit Types (f : Future msg) (w : World msg) (self : Ref).
Implicit Types (sched : Schedule msg) (g : Getter).

Lemma wait_loop_lookup self start elapsed tks w a w1 :
  wait_loop self start elapsed tks w = Ok a w1 → ∃ f, heap w !! self = Some f.
Proof. destruct tks; cbn; destruct (heap w !! self); by eauto. Qed.

(** A loop that has left is not affected by what the schedule holds
    beyond the sleeps it went through. *)
Lemma wait_loop_more self start tks more : ∀ elapsed w w1,
  wait_loop self start elapsed tks w = Ok tt w1 →
  wait_loop self start elapsed (tks ++ more) w = Ok tt w1.
Proof.
  induction tks as [|tk tks IH]; intros elapsed w w1 Hrun;
    destruct (wait_loop_lookup _ _ _ _ _ _ _ Hrun) as [f Hf];
    destruct (decide (messages f = [] ∨ elapsed < minwait f)) as [Hw|Hw].
  - rewrite (wait_loop_step _ _ _ _ _ f) in Hrun by done.
    by repeat case_match.
  - rewrite (wait_loop_done _ _ _ _ _ f) in Hrun; [|done|tauto|lia].
    rewrite (wait_loop_done _ _ _ _ _ f); [done|done|tauto|lia].
  - rewrite (wait_loop_step _ _ _ _ _ f) in Hrun by done.
    cbn [app]. rewrite (wait_loop_step _ _ _ _ _ f) by done.
    repeat case_match; try done. by apply IH.
  - rewrite (wait_loop_done _ _ _ _ _ f) in Hrun; [|done|tauto|lia].
    rewrite (wait_loop_done _ _ _ _ _ f); [done|done|tauto|lia].
Qed.

Lemma after_wait_con self b late_ms w :
  con (after_wait self b late_ms w) =
  if b then Connection.unregisterAll self (con w) else con w.
Proof. unfold after_wait. destruct b; cbn; by rewrite notify_all_con. Qed.

Lemma after_wait_now self b late_ms w : now (after_wait self b late_ms w) = now w.
Proof. unfold after_wait. destruct b; cbn; by rewrite notify_all_now. Qed.

Lemma after_wait_heap self b late_ms w :
  heap (after_wait self b late_ms w) = alter (receive late_ms) self (heap w).
Proof. unfold after_wait. destruct b; cbn; by rewrite notify_all_heap. Qed.

Lemma wait_loop_blocked_lookup self start elapsed tks w w1 :
  wait_loop self start elapsed tks w = Blocked w1 → ∃ f, heap w !! self = Some f.
Proof. destruct tks; cbn; destruct (heap w !! self); by eauto. Qed.

(** A loop found asleep at the end of [used] goes on with the next sleep
    when the schedule is longer. *)
Lemma wait_loop_resume self start used : ∀ elapsed w w1 tk rest,
  wait_loop self start elapsed used w = Blocked w1 →
  wait_loop self start elapsed (used ++ tk :: rest) w =
  wait_loop self start (clock tk - start) rest (sleep self tk w1).
Proof.
  induction used as [|tk0 used IH]; intros elapsed w w1 tk rest Hrun;
    destruct (wait_loop_blocked_lookup _ _ _ _ _ _ Hrun) as [f Hf];
    destruct (decide (messages f = [] ∨ elapsed < minwait f)) as [Hw|Hw].
  - rewrite (wait_loop_step _ _ _ _ _ f) in Hrun by done.
    cbn [app]. rewrite (wait_loop_step _ _ _ _ _ f) by done.
    destruct (timeout f <? elapsed); [done|].
    destruct (sleeptime f <? 0); [done|]. by injection Hrun as ->.
  - rewrite (wait_loop_done _ _ _ _ _ f) in Hrun; [done|done|tauto|lia].
  - rewrite (wait_loop_step _ _ _ _ _ f) in Hrun by done.
    cbn [app]. rewrite (wait_loop_step _ _ _ _ _ f) by done.
    destruct (timeout f <? elapsed); [done|].
    destruct (sleeptime f <? 0); [done|]. by apply IH.
  - rewrite (wait_loop_done _ _ _ _ _ f) in Hrun; [done|done|tauto|lia].
Qed.

Lemma receive_nothing ms f : accepted f ms = [] → receive ms f = f.
Proof.
  intros Hnone. unfold receive. rewrite Hnone, app_nil_r.
  apply set_messages_same.
Qed.

Lemma arrived_app (tks1 tks2 : list (Tick msg)) :
  arrived (tks1 ++ tks2) = arrived tks1 ++ arrived tks2.
Proof. unfold arrived. by rewrite List.map_app, concat_app. Qed.

(** The loop on a buffer that stays empty: it sleeps until the clock reads
    more than [timeout] past [start], and raises then. *)
Lemma wait_loop_empty self start tks : ∀ w f,
  heap w !! self = Some f →
  messages f = [] → accepted f (arrived tks) = [] →
  0 ≤ sleeptime f → now w - start ≤ timeout f →
  let w' := run_ticks self (until_late start (timeout f) tks) w in
  (Exists (λ tk, timeout f < clock tk - start) tks →
   wait_loop self start (now w - start) tks w = Raise TimeoutException w') ∧
  (Forall (λ tk, clock tk - start ≤ timeout f) tks →
   wait_loop self start (now w - start) tks w = Blocked w').
Proof.
  induction tks as [|tk tks IH]; intros w f Hf Hempty Hnone Hsleep Hnow; cbn zeta.
  - split; [by intros ?%Exists_nil|intros _].
    rewrite (wait_loop_step _ _ _ _ _ f) by auto.
    destruct (Z.ltb_spec (timeout f) (now w - start)); [lia|].
    destruct (Z.ltb_spec (sleeptime f) 0); [lia|done].
  - change (arrived (tk :: tks)) with (arrivals tk ++ arrived tks) in Hnone.
    rewrite accepted_app in Hnone. apply app_eq_nil in Hnone as [Hnone1 Hnone2].
    assert (Hf' : heap (sleep self tk w) !! self = Some f).
    { rewrite (sleep_lookup _ _ _ f) by done. by rewrite receive_nothing. }
    rewrite (wait_loop_step _ _ _ _ _ f) by auto.
    destruct (Z.ltb_spec (timeout f) (now w - start)); [lia|].
    destruct (Z.ltb_spec (sleeptime f) 0); [lia|].
    cbn [until_late].
    destruct (Z.ltb_spec (timeout f) (clock tk - start)) as [Hlate|Hintime].
    + split.
      * intros _. rewrite (wait_loop_step _ _ _ _ _ f) by auto.
        destruct (Z.ltb_spec (timeout f) (clock tk - start)); [done|lia].
      * intros Hall%Forall_cons_1. lia.
    + rewrite run_ticks_cons.
      destruct (IH (sleep self tk w) f Hf' Hempty Hnone2 Hsleep) as [IHlate IHblocked];
        [by rewrite sleep_now|].
      rewrite sleep_now in IHlate, IHblocked. split.
      * intros [?|?]%Exists_cons; [lia|by apply IHlate].
      * intros [_ ?]%Forall_cons_1. by apply IHblocked.
Qed.

(** On a steady clock enough sleeps bring the reading past any bound. *)
Lemma steady_exceeds (step start bound : Z) (tks : list (Tick msg)) : ∀ from,
  0 < step → start ≤ from → from - start ≤ bound →
  steady step from tks →
  bound - (from - start) < step * Z.of_nat (length tks) →
  Exists (λ tk, bound < clock tk - start) tks.
Proof.
  induction tks as [|tk tks IH]; intros from Hstep Hfrom Hbound Hsteady Hlong.
  - cbn in Hlong. lia.
  - destruct Hsteady as [Hnext Hsteady].
    destruct (decide (bound < clock tk - start)) as [Hlate|Hintime].
    + by apply Exists_cons_hd.
    + apply Exists_cons_tl, (IH (clock tk)); [done|lia|lia|done|].
      cbn [length] in Hlong. lia.
Qed.

End Schedules.

Section Factory.

Context {msg : Type}.
Implicit Types (f : Future msg) (w : World msg) (self : Ref).
Implicit Types (sched : Schedule msg) (g : Getter).

Lemma register_each_world self ts : ∀ w,
  register_each self ts w =
  Ok tt (set_con w (Connection.mk (Connection.registrations (con w) ++
                                   List.map (λ t, (t, self)) ts))).
Proof.
  induction ts as [|t ts IH]; intros w.
  - cbn. unfold ret, set_con. rewrite app_nil_r. by destruct w as [[]].
  - cbn [register_each]. unfold bind, con_register. rewrite IH.
    cbn. by rewrite <- app_assoc.
Qed.

Lemma registered_under_app callback regs1 regs2 :
  Connection.registered_under callback (Connection.mk (regs1 ++ regs2)) =
  Connection.registered_under callback (Connection.mk regs1) ++
  Connection.registered_under callback (Connection.mk regs2).
Proof.
  unfold Connection.registered_under. cbn.
  by rewrite List.filter_app, List.map_app.
Qed.

Lemma registered_under_own callback ts :
  Connection.registered_under callback
    (Connection.mk (List.map (λ t, (t, callback)) ts)) = ts.
Proof.
  unfold Connection.registered_under. cbn.
  induction ts as [|t ts IH]; [done|].
  cbn. rewrite Nat.eqb_refl. cbn. by rewrite IH.
Qed.

(** The factory up to the call of the request function. *)
Lemma create_filtered_unfold {A : Type}
      (msgTypes : MsgTypes) (flt : option (msg → bool))
      (requestFct : A → M msg unit) (reqValues : A) (kw : KeyValues) w :
  arg_minwait kw < arg_timeout kw →
  create_filtered msgTypes flt requestFct reqValues kw w =
  (requestFct reqValues ;;; ret (length (heap w)))
    (registered_world msgTypes flt kw w).
Proof.
  intros Hgood. unfold create_filtered, bind at 1, Future_init.
  destruct (Z.ltb_spec (arg_minwait kw) (arg_timeout kw)); [|lia].
  unfold bind at 1, update_obj at 1. cbn [heap set_heap].
  unfold bind at 1.
  assert (Hflt :
    match flt with
    | Some p => update_obj (length (heap w)) (λ o, set_filter o p)
    | None => ret tt
    end (set_heap (set_heap w (heap w ++ [fresh_future kw]))
           (alter (λ o, set_name o msgTypes) (length (heap w))
                  (heap w ++ [fresh_future kw])))
    = Ok tt (set_heap w (heap w ++ [built_future msgTypes flt kw]))).
  { rewrite alter_app_r_alt by lia. rewrite Nat.sub_diag.
    destruct flt as [p|]; cbn; [|done].
    unfold update_obj, set_heap. cbn.
    rewrite alter_app_r_alt by lia. by rewrite Nat.sub_diag. }
  rewrite Hflt. unfold bind at 1. rewrite register_each_world.
  done.
Qed.

End Factory.

Section Closing.

Context {msg : Type}.
Implicit Types (f : Future msg) (w : World msg) (self : Ref).
Implicit Types (sched : Schedule msg) (g : Getter).

Lemma notify_all_set_con self ms : ∀ w c,
  notify_all self ms (set_con w c) = set_con (notify_all self ms w) c.
Proof.
  induction ms as [|m ms IH]; intros w c; [done|].
  rewrite !notify_all_cons. by rewrite <- IH.
Qed.

Lemma sleep_set_con self tk w c :
  sleep self tk (set_con w c) = set_con (sleep self tk w) c.
Proof. unfold sleep. by rewrite notify_all_set_con. Qed.

(** The loop neither reads nor writes the connection. *)
Lemma wait_loop_set_con self start tks : ∀ elapsed w c,
  wait_loop self start elapsed tks (set_con w c) =
  match wait_loop self start elapsed tks w with
  | Ok a w' => Ok a (set_con w' c)
  | Raise e w' => Raise e (set_con w' c)
  | Blocked w' => Blocked (set_con w' c)
  end.
Proof.
  induction tks as [|tk tks IH]; intros elapsed w c;
    cbn [wait_loop heap set_con];
    destruct (heap w !! self) as [f|]; try done;
    destruct (no_messages f || (elapsed <? minwait f)); try done;
    destruct (timeout f <? elapsed); try done;
    destruct (sleeptime f <? 0); try done.
  rewrite sleep_set_con. apply IH.
Qed.

(** A getter's outcome and the store it leaves do not depend on the
    connection. *)
Lemma get_select_set_con select self sched w c :
  outcome_of (_get_select select self sched (set_con w c)) =
    outcome_of (_get_select select self sched w) ∧
  heap (world_of (_get_select select self sched (set_con w c))) =
    heap (world_of (_get_select select self sched w)) ∧
  now (world_of (_get_select select self sched (set_con w c))) =
    now (world_of (_get_select select self sched w)).
Proof.
  rewrite !get_select_unfold. cbn [now set_con].
  rewrite wait_loop_set_con.
  destruct (wait_loop self (now w) 0 (ticks sched) w) as [[] w1|e w1|w1];
    [|done..].
  cbn [heap set_con].
  destruct (heap w1 !! self) as [f1|].
  - destruct (select _); cbn [outcome_of world_of];
      rewrite !after_wait_heap, !after_wait_now; done.
  - cbn. by rewrite notify_all_set_con.
Qed.

Lemma unregisterAll_idempotent callback c :
  Connection.unregisterAll callback (Connection.unregisterAll callback c) =
  Connection.unregisterAll callback c.
Proof.
  unfold Connection.unregisterAll. cbn. f_equal.
  induction (Connection.registrations c) as [|p regs IH]; [done|].
  cbn. destruct (negb (snd p =? callback)%nat) eqn:Hp; cbn; [|done].
  by rewrite Hp, IH.
Qed.

Lemma unregisterAll_registered_under callback c :
  Connection.registered_under callback (Connection.unregisterAll callback c) = [].
Proof.
  unfold Connection.registered_under, Connection.unregisterAll. cbn.
  induction (Connection.registrations c) as [|p regs IH]; [done|].
  cbn. destruct (snd p =? callback)%nat eqn:Hp; cbn; [done|].
  by rewrite Hp.
Qed.

Lemma unregisterAll_other callback other c :
  other ≠ callback →
  Connection.registered_under other (Connection.unregisterAll callback c) =
  Connection.registered_under other c.
Proof.
  intros Hne. unfold Connection.registered_under, Connection.unregisterAll. cbn.
  induction (Connection.registrations c) as [|p regs IH]; [done|].
  cbn. destruct (Nat.eqb_spec (snd p) callback) as [Hp|Hp]; cbn.
  - destruct (Nat.eqb_spec (snd p) other); [congruence|done].
  - destruct (snd p =? other)%nat; cbn; by rewrite IH.
Qed.

End Closing.

(** * The claims *)

Section Claims.

Context {msg : Type}.
Implicit Types (f : Future msg) (w : World msg) (self : Ref).
Implicit Types (sched : Schedule msg) (g : Getter).

(** C1, as the code has it: while the buffer stays empty a getter never
    returns a value; it raises [TimeoutException] at the first test that
    finds more than [timeout] elapsed (before any sleep when [timeout] is
    negative), and as long as the clock has read at most [timeout] past
    the start, exactly [timeout] included, it raises nothing and sleeps
    again.  It does not sleep for ever: on a clock on which every sleep
    lets at least [sleeptime] pass, it has raised once the sleeps add up
    to more than [timeout].  [sleeptime] is taken non-negative:
    [time.sleep] rejects a negative one. *)
Theorem empty_buffer_times_out g self sched w f :
  heap w !! self = Some f →
  messages f = [] → accepted f (arrived (ticks sched)) = [] →
  0 ≤ sleeptime f →
  let r := call g self sched w in
  let w' := run_ticks self (until_late (now w) (timeout f) (ticks sched)) w in
  (∀ v w'', r ≠ Ok v w'') ∧
  (timeout f < 0 → r = Raise TimeoutException w) ∧
  (0 ≤ timeout f →
   Exists (λ tk, timeout f < clock tk - now w) (ticks sched) →
   r = Raise TimeoutException w') ∧
  (0 ≤ timeout f →
   Forall (λ tk, clock tk - now w ≤ timeout f) (ticks sched) →
   r = Blocked w') ∧
  (0 < sleeptime f →
   steady (sleeptime f) (now w) (ticks sched) →
   timeout f < sleeptime f * Z.of_nat (length (ticks sched)) →
   ∃ w'', r = Raise TimeoutException w'').
Proof.
  intros Hf Hempty Hnone Hsleep. cbn zeta.
  rewrite call_get_select.
  assert (Hneg : timeout f < 0 →
                 _get_select (selection g) self sched w = Raise TimeoutException w).
  { intros Hneg. rewrite get_select_unfold.
    rewrite (wait_loop_step _ _ _ _ _ f) by auto.
    destruct (Z.ltb_spec (timeout f) 0); [done|lia]. }
  assert (Hlate : 0 ≤ timeout f →
                  Exists (λ tk, timeout f < clock tk - now w) (ticks sched) →
                  _get_select (selection g) self sched w =
                  Raise TimeoutException
                    (run_ticks self (until_late (now w) (timeout f) (ticks sched)) w)).
  { intros Hpos Hex. rewrite get_select_unfold.
    destruct (wait_loop_empty self (now w) (ticks sched) w f) as [Hraise _];
      [done|done|done|done|lia|].
    replace (now w - now w) with 0 in Hraise by lia.
    by rewrite Hraise. }
  split; [|split; [|split; [|split]]]; [|done|done| |].
  - intros v w'' Hcall.
    destruct (get_select_inv (selection g) self sched w f Hf)
      as (used & rest & Hsplit & Hinv).
    cbn zeta in Hinv. rewrite Hcall in Hinv. destruct Hinv as (_ & _ & Hne & _).
    rewrite Hsplit, arrived_app, accepted_app in Hnone.
    apply app_eq_nil in Hnone as [Hnone _].
    rewrite receive_messages, Hempty, Hnone in Hne. done.
  - intros Hpos Hintime. rewrite get_select_unfold.
    destruct (wait_loop_empty self (now w) (ticks sched) w f) as [_ Hblocked];
      [done|done|done|done|lia|].
    replace (now w - now w) with 0 in Hblocked by lia.
    by rewrite Hblocked.
  - intros Hstep Hsteady Hlong.
    destruct (decide (timeout f < 0)) as [Hn|Hp]; [eauto|].
    eexists. apply Hlate; [lia|].
    apply (steady_exceeds (sleeptime f) (now w) (timeout f) _ (now w));
      [done|lia|lia|done|lia].
Qed.

(** C2: start from an object whose buffer is empty, as [__init__] leaves
    it, let the producer call [notify] with [pre], and call a getter.  Once
    the wait loop has left, [get_all] returns the messages the filter kept
    among all those the producer handed over so far ([pre], then the sleeps
    [used] the loop went through, then the late ones), in that order, which
    is also the buffer it leaves; on the same input [get_first] returns the
    first of them and [get_last] the last. *)
Theorem getters_return_accepted_in_order self sched w f pre w1 :
  heap w !! self = Some f →
  messages f = [] →
  let w0 := notify_all self pre w in
  wait_loop self (now w0) 0 (ticks sched) w0 = Ok tt w1 →
  ∃ used rest, ticks sched = used ++ rest ∧ w1 = run_ticks self used w0 ∧
    let kept := accepted f (pre ++ arrived used ++ late sched) in
    let w' := after_wait self (autoclose f) (late sched) w1 in
    get_all self sched w0 = Ok (VList kept) w' ∧
    heap w' !! self = Some (set_messages f kept) ∧
    ∃ earliest latest,
      head kept = Some earliest ∧ last kept = Some latest ∧
      get_first self sched w0 = Ok (VMsg earliest) w' ∧
      get_last self sched w0 = Ok (VMsg latest) w'.
Proof.
  intros Hf Hempty w0 Hrun.
  pose proof (notify_all_lookup self pre w f Hf) as Hf0.
  fold w0 in Hf0. set (f0 := receive pre f) in *.
  assert (Hkept : ∀ ms, messages f0 ++ accepted f0 ms = accepted f (pre ++ ms)).
  { intros ms. unfold f0. rewrite receive_messages, Hempty, accepted_app. done. }
  destruct (wait_loop_inv self (now w0) (ticks sched) w0 f0 Hf0)
    as (used & rest & Hsplit & Hloop).
  cbn zeta in Hloop. replace (now w0 - now w0) with 0 in Hloop by lia.
  rewrite Hrun in Hloop. destruct Hloop as (-> & Hne & _).
  assert (Hbuf : messages (receive (arrived used) f0) ++ accepted f0 (late sched)
                 = accepted f (pre ++ arrived used ++ late sched)).
  { by rewrite receive_messages, <- app_assoc, <- accepted_app, Hkept. }
  assert (Hkept_ne : accepted f (pre ++ arrived used ++ late sched) ≠ []).
  { rewrite <- Hbuf. by intros [? _]%app_eq_nil. }
  exists used, rest. split; [done|]. split; [done|]. cbn zeta.
  unfold get_all, get_first, get_last, get.
  rewrite !get_select_unfold, Hrun.
  rewrite (run_ticks_lookup _ _ _ f0) by done.
  change (autoclose (receive (arrived used) f0)) with (autoclose f).
  change (accepted (receive (arrived used) f0) (late sched))
    with (accepted f0 (late sched)).
  rewrite !Hbuf. split; [done|]. split.
  - rewrite after_wait_heap, list_lookup_alter_eq.
    rewrite (run_ticks_lookup _ _ _ f0) by done. cbn [fmap option_fmap option_map].
    f_equal. unfold receive at 1.
    change (accepted (receive (arrived used) f0) (late sched))
      with (accepted f0 (late sched)).
    by rewrite Hbuf.
  - destruct (accepted f (pre ++ arrived used ++ late sched))
      as [|m kept'] eqn:Hk; [done|].
    destruct (last (m :: kept')) as [l|] eqn:Hl; [|by apply last_None in Hl].
    exists m, l. cbn [head select_one]. by rewrite Hl.
Qed.

(** C3: a getter that returns has seen at least [minwait] pass on the
    clock since it was called, however early the messages came, and leaves
    a non-empty buffer.  It returns without sleeping when it is called on a
    non-empty buffer with no settle time to wait for; and when it is asleep
    at the end of [used] and the next sleep ends with a non-empty buffer
    and [minwait] elapsed, it returns after that sleep, whatever [rest] the
    producer would still deliver.  A longer schedule does not change what
    a getter has returned. *)
Theorem getter_settles_then_returns g self sched w f :
  heap w !! self = Some f →
  (∀ v w', call g self sched w = Ok v w' →
     minwait f ≤ now w' - now w ∧
     ∃ f', heap w' !! self = Some f' ∧ messages f' ≠ []) ∧
  (messages f ≠ [] → minwait f ≤ 0 →
   ∃ v, call g self sched w =
        Ok v (after_wait self (autoclose f) (late sched) w)) ∧
  (∀ used tk rest w1 f2,
     call g self (mkSchedule used (late sched)) w = Blocked w1 →
     heap (sleep self tk w1) !! self = Some f2 →
     messages f2 ≠ [] → minwait f ≤ clock tk - now w →
     ∃ v, call g self (mkSchedule (used ++ tk :: rest) (late sched)) w =
          Ok v (after_wait self (autoclose f) (late sched) (sleep self tk w1))) ∧
  (∀ more v w', call g self sched w = Ok v w' →
     call g self (mkSchedule (ticks sched ++ more) (late sched)) w = Ok v w').
Proof.
  intros Hf. split; [|split; [|split]].
  - intros v w' Hcall. rewrite call_get_select in Hcall.
    destruct (get_select_inv (selection g) self sched w f Hf) as (used & rest & _ & Hinv).
    cbn zeta in Hinv. rewrite Hcall in Hinv. destruct Hinv as (-> & _ & Hne & Hmin).
    split; [by rewrite after_wait_now|].
    exists (receive (late sched) (receive (arrived used) f)). split.
    + rewrite after_wait_heap, list_lookup_alter_eq.
      by rewrite (run_ticks_lookup _ _ _ f).
    + rewrite receive_messages. intros [? _]%app_eq_nil. done.
  - intros Hne Hmin. rewrite call_get_select, get_select_unfold.
    rewrite (wait_loop_done _ _ _ _ _ f) by done. rewrite Hf.
    destruct (selection_nonempty g (messages f ++ accepted f (late sched)))
      as [v Hv]; [by intros [? _]%app_eq_nil|].
    rewrite Hv. by exists v.
  - intros used tk rest w1 f2 Hblocked Hf2 Hne Hmin.
    rewrite call_get_select, get_select_unfold in Hblocked.
    rewrite call_get_select, get_select_unfold.
    cbn [ticks late] in *.
    destruct (wait_loop_inv self (now w) used w f Hf) as (used' & rest' & _ & Hinv).
    cbn zeta in Hinv. replace (now w - now w) with 0 in Hinv by lia.
    destruct (wait_loop self (now w) 0 used w) as [[] w0|e w0|w0] eqn:Hrun.
    + destruct (heap w0 !! self); [|done]. by destruct (selection g _).
    + done.
    + injection Hblocked as ->. destruct Hinv as (-> & _).
      rewrite (sleep_lookup _ _ _ (receive (arrived used') f)) in Hf2
        by (by apply run_ticks_lookup).
      injection Hf2 as <-.
      rewrite (wait_loop_resume _ _ _ _ _ _ _ _ Hrun).
      rewrite (wait_loop_done _ _ _ _ _
                 (receive (arrivals tk) (receive (arrived used') f)));
        [|by apply sleep_lookup, run_ticks_lookup|done|done].
      rewrite (sleep_lookup _ _ _ (receive (arrived used') f))
        by (by apply run_ticks_lookup).
      destruct (selection_nonempty g
                  (messages (receive (arrivals tk) (receive (arrived used') f)) ++
                   accepted (receive (arrivals tk) (receive (arrived used') f))
                            (late sched)))
        as [v Hv]; [by intros [? _]%app_eq_nil|].
      rewrite Hv. by exists v.
  - intros more v w'. rewrite call_get_select, !get_select_unfold. cbn [ticks late].
    destruct (wait_loop self (now w) 0 (ticks sched) w) as [[] w1|e w1|w1] eqn:Hrun;
      [|done..].
    by rewrite (wait_loop_more _ _ _ more _ _ _ Hrun).
Qed.

(** C4: a getter that returns has called [close] if and only if
    [autoclose] is set; a getter that raises, which only its loop does,
    has not called it: the connection is as it was, so the listener is
    still registered, and the buffer holds what it held at the call
    followed by what was accepted since, so the getter can be called
    again on the same object. *)
Theorem autoclose_on_success_only g self sched w f :
  heap w !! self = Some f →
  (∀ v w', call g self sched w = Ok v w' →
     con w' = if autoclose f
              then con (world_of (close self w))
              else con w) ∧
  (∀ e w', call g self sched w = Raise e w' →
     (e = TimeoutException ∨ e = SleepError) ∧
     con w' = con w ∧
     ∃ used rest, ticks sched = used ++ rest ∧
       heap w' = alter (receive (arrived used)) self (heap w) ∧
       heap w' !! self = Some (receive (arrived used) f)) ∧
  (∀ w', call g self sched w = Blocked w' → con w' = con w).
Proof.
  intros Hf.
  destruct (get_select_inv (selection g) self sched w f Hf)
    as (used & rest & Hsplit & Hinv).
  cbn zeta in Hinv. rewrite <- call_get_select in Hinv.
  split; [|split].
  - intros v w' Hcall. rewrite Hcall in Hinv. destruct Hinv as (-> & _).
    rewrite after_wait_con, run_ticks_con. done.
  - intros e w' Hcall. rewrite Hcall in Hinv.
    destruct Hinv as [(-> & _ & He)|(_ & Hsel & Hne & _)].
    + split; [tauto|]. split; [apply run_ticks_con|].
      exists used, rest. split; [done|]. split; [apply run_ticks_heap|].
      by apply run_ticks_lookup.
    + exfalso. rewrite receive_messages in Hne.
      destruct (selection_nonempty g
                  (messages f ++ accepted f (arrived used ++ late sched))) as [v Hv].
      * rewrite accepted_app, app_assoc. by intros [? _]%app_eq_nil.
      * congruence.
  - intros w' Hcall. rewrite Hcall in Hinv. destruct Hinv as (-> & _).
    apply run_ticks_con.
Qed.

(** C5: when [minwait >= timeout] the assertion of [__init__] fails:
    construction raises and leaves the world as it was, and so does the
    factory, which has not yet registered anything nor called the request
    function. *)
Theorem construction_rejects_minwait_ge_timeout {A : Type}
        (msgTypes : MsgTypes) (flt : option (msg → bool))
        (requestFct : A → M msg unit) (reqValues : A) (kw : KeyValues) w :
  arg_timeout kw ≤ arg_minwait kw →
  Future_init kw w = Raise AssertionError w ∧
  create_filtered msgTypes flt requestFct reqValues kw w = Raise AssertionError w ∧
  create msgTypes requestFct reqValues kw w = Raise AssertionError w.
Proof.
  intros Hbad.
  assert (Hinit : Future_init (msg:=msg) kw w = Raise AssertionError w).
  { unfold Future_init. destruct (Z.ltb_spec (arg_minwait kw) (arg_timeout kw)); [lia|done]. }
  split; [done|].
  unfold create, create_filtered, bind. by rewrite Hinit.
Qed.

(** C6: [close] returns normally and takes the associations of the
    object's [notify] out of the table, under every event type, and those
    only; store and clock, hence the buffer, are as before.  A second
    [close] returns normally too and changes nothing.  Any getter called
    after [close] does what it would have done without it. *)
Theorem close_only_unregisters g self sched w :
  let w1 := world_of (close self w) in
  close self w = Ok tt w1 ∧
  con w1 = Connection.unregisterAll self (con w) ∧
  Connection.registered_under self (con w1) = [] ∧
  (∀ other, other ≠ self →
     Connection.registered_under other (con w1) =
     Connection.registered_under other (con w)) ∧
  heap w1 = heap w ∧ now w1 = now w ∧
  close self w1 = Ok tt w1 ∧
  outcome_of (call g self sched w1) = outcome_of (call g self sched w) ∧
  heap (world_of (call g self sched w1)) = heap (world_of (call g self sched w)).
Proof.
  cbn zeta. cbn [close world_of].
  split; [done|]. split; [done|].
  split; [apply unregisterAll_registered_under|].
  split; [intros other Hne; by apply unregisterAll_other|].
  split; [done|]. split; [done|].
  split.
  - unfold close, set_con. cbn. by rewrite unregisterAll_idempotent.
  - rewrite call_get_select.
    destruct (get_select_set_con (selection g) self sched w
                (Connection.unregisterAll self (con w))) as (Hout & Hheap & _).
    done.
Qed.

(** C7: when construction succeeds, the factory calls the request
    function in a world where the new object is in the store, with the
    caller's filter or else the class's, which keeps every message, and
    where the table has gained one association of the new object's
    [notify] per element of [msgTypes], a lone [str] counting as the
    sequence of itself; the factory then returns the object, unless the
    request raised.  [create] is [create_filtered] without a filter. *)
Theorem create_filtered_registers_then_requests {A : Type}
        (msgTypes : MsgTypes) (flt : option (msg → bool))
        (requestFct : A → M msg unit) (reqValues : A) (kw : KeyValues) w :
  arg_minwait kw < arg_timeout kw →
  let self := length (heap w) in
  let w_req := registered_world msgTypes flt kw w in
  create_filtered msgTypes flt requestFct reqValues kw w =
    (requestFct reqValues ;;; ret self) w_req ∧
  Connection.registrations (con w_req) =
    Connection.registrations (con w) ++
    List.map (λ t, (t, self)) (msgTypes_iter msgTypes) ∧
  Connection.registered_under self (con w_req) =
    Connection.registered_under self (con w) ++ msgTypes_iter msgTypes ∧
  (∀ t, msgTypes_iter (OneType t) = [t]) ∧
  heap w_req !! self = Some (built_future msgTypes flt kw) ∧
  filter (built_future msgTypes flt kw) = default default_filter flt ∧
  create msgTypes requestFct reqValues kw w =
    create_filtered msgTypes None requestFct reqValues kw w ∧
  create msgTypes requestFct reqValues kw w =
    (requestFct reqValues ;;; ret self) (registered_world msgTypes None kw w) ∧
  (∀ m : msg, filter (built_future msgTypes None kw) m = true).
Proof.
  intros Hgood. cbn zeta.
  repeat split; try done.
  - by apply create_filtered_unfold.
  - unfold registered_world. cbn [con].
    rewrite registered_under_app, registered_under_own. by destruct (con w).
  - unfold registered_world. cbn [heap]. by rewrite list_lookup_middle.
  - unfold create. by apply create_filtered_unfold.
Qed.

(** C8: an exception of the request function leaves the factory as it
    is, with the world the request function left: the factory does nothing
    after it, and the request function had found the new object
    registered under each event type. *)
Theorem request_error_propagates {A : Type}
        (msgTypes : MsgTypes) (flt : option (msg → bool))
        (requestFct : A → M msg unit) (reqValues : A) (kw : KeyValues)
        w (e : Exn) (wr : World msg) :
  arg_minwait kw < arg_timeout kw →
  requestFct reqValues (registered_world msgTypes flt kw w) = Raise e wr →
  create_filtered msgTypes flt requestFct reqValues kw w = Raise e wr ∧
  (flt = None → create msgTypes requestFct reqValues kw w = Raise e wr) ∧
  Connection.registered_under (length (heap w))
    (con (registered_world msgTypes flt kw w)) =
    Connection.registered_under (length (heap w)) (con w) ++ msgTypes_iter msgTypes ∧
  (con wr = con (registered_world msgTypes flt kw w) →
   Connection.registered_under (length (heap w)) (con wr) =
     Connection.registered_under (length (heap w)) (con w) ++ msgTypes_iter msgTypes).
Proof.
  intros Hgood Hreq.
  assert (Hreg : Connection.registered_under (length (heap w))
            (con (registered_world msgTypes flt kw w)) =
          Connection.registered_under (length (heap w)) (con w) ++ msgTypes_iter msgTypes).
  { unfold registered_world. cbn [con].
    rewrite registered_under_app, registered_under_own. by destruct (con w). }
  split; [|split; [|split]].
  - rewrite create_filtered_unfold by done. unfold bind. by rewrite Hreq.
  - intros ->. unfold create. rewrite create_filtered_unfold by done.
    unfold bind. by rewrite Hreq.
  - done.
  - by intros ->.
Qed.

(** C10: the object records nothing about [close]: [close] leaves the
    store as it is, and a call of [notify] after it appends an accepted
    message to the buffer as it would have without it; the two calls
    commute. *)
Theorem notify_ignores_close self (m : msg) w f :
  heap w !! self = Some f →
  filter f m = true →
  let wc := world_of (close self w) in
  heap wc = heap w ∧
  heap (notify self m wc) !! self = Some (set_messages f (messages f ++ [m])) ∧
  heap (notify self m wc) = heap (notify self m w) ∧
  notify self m wc = world_of (close self (notify self m w)).
Proof.
  intros Hf Hkeep. cbn zeta. cbn [close world_of].
  split; [done|]. split; [|done].
  cbn. rewrite list_lookup_alter_eq, Hf. cbn.
  unfold notify_obj. by rewrite Hkeep.
Qed.

End Claims.

(** * The scenario, checked *)

(** C1, as stated, fails: a listener with 0.3 s of timeout whose third
    poll reads exactly 0.3 s with an empty buffer does not raise; it sleeps
    again, and if a message arrives during that sleep the getter returns
    it. *)
Lemma exact_timeout_is_not_a_failure :
  heap ex_short_world !! 0%nat = Some ex_short_listener ∧
  messages ex_short_listener = [] ∧
  now (run_ticks 0 (ticks ex_silence_to_timeout) ex_short_world)
    - now ex_short_world = timeout ex_short_listener ∧
  call GetAll 0 ex_silence_to_timeout ex_short_world =
    Blocked (run_ticks 0 (ticks ex_silence_to_timeout) ex_short_world) ∧
  (¬ ∃ w', call GetAll 0 ex_silence_to_timeout ex_short_world =
           Raise TimeoutException w') ∧
  call GetAll 0 ex_message_after_timeout ex_short_world =
    Ok (VList ["A"%string])
       (after_wait 0 true []
          (run_ticks 0 (ticks ex_message_after_timeout) ex_short_world)).
Proof.
  repeat split; try reflexivity.
  intros [w' Hraise]. vm_compute in Hraise. discriminate Hraise.
Qed.

Lemma empty_buffer_times_out_witness :
  call GetAll 0 ex_silence_past_timeout ex_short_world =
    Raise TimeoutException
      (run_ticks 0 (ticks ex_silence_past_timeout) ex_short_world) ∧
  call GetAll 0 ex_silence_to_timeout ex_short_world =
    Blocked (run_ticks 0 (ticks ex_silence_to_timeout) ex_short_world).
Proof.
  split.
  - destruct (empty_buffer_times_out GetAll 0 ex_silence_past_timeout
                ex_short_world ex_short_listener) as (_ & _ & Hraise & _);
      [reflexivity|reflexivity|reflexivity|vm_compute; discriminate|].
    apply Hraise; [vm_compute; discriminate|].
    do 3 apply Exists_cons_tl. apply Exists_cons_hd. reflexivity.
  - destruct (empty_buffer_times_out GetAll 0 ex_silence_to_timeout
                ex_short_world ex_short_listener) as (_ & _ & _ & Hblocked);
      [reflexivity|reflexivity|reflexivity|vm_compute; discriminate|].
    apply Hblocked; [vm_compute; discriminate|].
    repeat (apply Forall_cons; split; [vm_compute; discriminate|]).
    apply Forall_nil_2.
Defined.

Lemma getters_return_accepted_in_order_witness :
  ∃ used rest, ticks ex_mixed = used ++ rest ∧
    get_all 0 ex_mixed (notify_all 0 ex_early ex_filtered_world)
      = Ok (VList (accepted ex_filtered_listener
                     (ex_early ++ arrived used ++ late ex_mixed)))
           (after_wait 0 true []
              (run_ticks 0 (take 4 (ticks ex_mixed))
                 (notify_all 0 ex_early ex_filtered_world))) ∧
    ∃ earliest latest,
      get_first 0 ex_mixed (notify_all 0 ex_early ex_filtered_world)
        = Ok (VMsg earliest)
             (after_wait 0 true []
                (run_ticks 0 (take 4 (ticks ex_mixed))
                   (notify_all 0 ex_early ex_filtered_world))) ∧
      get_last 0 ex_mixed (notify_all 0 ex_early ex_filtered_world)
        = Ok (VMsg latest)
             (after_wait 0 true []
                (run_ticks 0 (take 4 (ticks ex_mixed))
                   (notify_all 0 ex_early ex_filtered_world))).
Proof.
  destruct (getters_return_accepted_in_order 0 ex_mixed ex_filtered_world
              ex_filtered_listener ex_early
              (run_ticks 0 (take 4 (ticks ex_mixed))
                 (notify_all 0 ex_early ex_filtered_world)))
    as (used & rest & Hsplit & _ & Hall & _ & earliest & latest & _ & _ & Hfirst & Hlast);
    [reflexivity|reflexivity|reflexivity|].
  exists used, rest. split; [exact Hsplit|]. split; [exact Hall|].
  exists earliest, latest. split; [exact Hfirst|exact Hlast].
Defined.

(** The scenario of the filter, evaluated: "Y" and "Z" are dropped, "X3"
    comes after the getter has returned. *)
Example filtered_getters_evaluated :
  outcome_of (get_all 0 ex_mixed (notify_all 0 ex_early ex_filtered_world))
    = Returned _ (VList ["X1"; "X2"]%string) ∧
  outcome_of (get_first 0 ex_mixed (notify_all 0 ex_early ex_filtered_world))
    = Returned _ (VMsg "X1"%string) ∧
  outcome_of (get_last 0 ex_mixed (notify_all 0 ex_early ex_filtered_world))
    = Returned _ (VMsg "X2"%string).
Proof. repeat split. Qed.

Lemma getter_settles_then_returns_witness :
  minwait ex_listener ≤
    now (after_wait 0 true [] (run_ticks 0 (take 4 (ticks ex_burst)) ex_world))
    - now ex_world ∧
  ∃ v, call GetAll 0 ex_burst ex_world =
       Ok v (after_wait 0 true [] (run_ticks 0 (take 4 (ticks ex_burst)) ex_world)).
Proof.
  destruct (getter_settles_then_returns GetAll 0
              (mkSchedule (take 4 (ticks ex_burst)) []) ex_world ex_listener)
    as (Hsettled & _ & Hready & _); [reflexivity|].
  split.
  - apply (Hsettled (VList ["A"; "B"]%string)). reflexivity.
  - apply (Hready (take 3 (ticks ex_burst)) (mkTick [] 200000)
                  [mkTick ["C"%string] 250000]
                  (run_ticks 0 (take 3 (ticks ex_burst)) ex_world)
                  (set_messages ex_listener ["A"; "B"]%string));
      [reflexivity|reflexivity|discriminate|vm_compute; discriminate].
Defined.

Lemma autoclose_on_success_only_witness :
  con (after_wait 0 true [] (run_ticks 0 (take 4 (ticks ex_burst)) ex_world))
    = Connection.mk [] ∧
  con (run_ticks 0 (ticks ex_silence_past_timeout) ex_short_world)
    = con ex_short_world.
Proof.
  split.
  - destruct (autoclose_on_success_only GetAll 0 ex_burst ex_world ex_listener)
      as (Hok & _); [reflexivity|].
    apply (Hok (VList ["A"; "B"]%string)). reflexivity.
  - destruct (autoclose_on_success_only GetAll 0 ex_silence_past_timeout
                ex_short_world ex_short_listener) as (_ & Hraise & _);
      [reflexivity|].
    apply (Hraise TimeoutException). reflexivity.
Defined.

Lemma construction_rejects_minwait_ge_timeout_witness :
  create_filtered ex_types (Some only_X) ex_request tt
    (mkKeyValues (Some 100000) None None None) ex_empty_world
  = Raise AssertionError ex_empty_world.
Proof.
  apply (construction_rejects_minwait_ge_timeout ex_types (Some only_X)
           ex_request tt (mkKeyValues (Some 100000) None None None)
           ex_empty_world).
  vm_compute. discriminate.
Defined.

Lemma create_filtered_registers_then_requests_witness :
  create_filtered ex_types (Some only_X) ex_request tt ex_keyvalues ex_empty_world
    = Ok 0%nat ex_filtered_world ∧
  Connection.registrations (con ex_filtered_world)
    = [("tickPrice", 0%nat); ("tickSize", 0%nat)]%string.
Proof.
  destruct (create_filtered_registers_then_requests ex_types (Some only_X)
              ex_request tt ex_keyvalues ex_empty_world)
    as (Hcreate & Hregs & _); [reflexivity|].
  split; [exact Hcreate|exact Hregs].
Defined.

Lemma request_error_propagates_witness :
  create ex_types ex_failing_request tt ex_keyvalues ex_empty_world
    = Raise (RequestError "not connected") ex_world ∧
  Connection.registered_under 0 (con ex_world) = ["tickPrice"; "tickSize"]%string.
Proof.
  destruct (request_error_propagates ex_types None ex_failing_request tt
              ex_keyvalues ex_empty_world (RequestError "not connected") ex_world)
    as (_ & Hcreate & _ & Hleft); [reflexivity|reflexivity|].
  split; [by apply Hcreate|by apply Hleft].
Defined.

Lemma notify_ignores_close_witness :
  heap (notify 0 "A"%string (world_of (close 0 ex_world))) !! 0%nat
    = Some (set_messages ex_listener ["A"%string]) ∧
  Connection.registered_under 0 (con (world_of (close 0 ex_world))) = [].
Proof.
  destruct (notify_ignores_close 0 "A"%string ex_world ex_listener)
    as (_ & Hnotified & _); [reflexivity|reflexivity|].
  split; [exact Hnotified|reflexivity].
Defined.

(** * Further properties of the class *)

Section Further.

Context {msg : Type}.
Implicit Types (f : Future msg) (w : World msg) (self : Ref).
Implicit Types (sched : Schedule msg) (g : Getter).

Lemma world_eq w1 w2 :
  con w1 = con w2 → heap w1 = heap w2 → now w1 = now w2 → w1 = w2.
Proof. destruct w1, w2. cbn. by intros -> -> ->. Qed.

Lemma notify_all_world self ms w :
  notify_all self ms w = set_heap w (alter (receive ms) self (heap w)).
Proof.
  apply world_eq; cbn;
    [apply notify_all_con|apply notify_all_heap|apply notify_all_now].
Qed.

Lemma alter_receive_nothing self ms w f :
  heap w !! self = Some f → accepted f ms = [] →
  alter (receive ms) self (heap w) = heap w.
Proof.
  intros Hf Hnone.
  rewrite (list_alter_ext (receive ms) id (heap w) (heap w) self).
  - by apply list_alter_id.
  - intros f' Hf'. rewrite Hf in Hf'. injection Hf' as <-.
    by apply receive_nothing.
  - done.
Qed.

(** Whatever its outcome, a getter has only handed messages to its own
    object. *)
Lemma get_select_heap select self sched w f :
  heap w !! self = Some f →
  ∃ ms, heap (world_of (_get_select select self sched w)) =
        alter (receive ms) self (heap w).
Proof.
  intros Hf.
  destruct (get_select_inv select self sched w f Hf) as (used & rest & _ & Hinv).
  cbn zeta in Hinv.
  assert (Hafter : heap (after_wait self (autoclose f) (late sched)
                           (run_ticks self used w)) =
                   alter (receive (arrived used ++ late sched)) self (heap w)).
  { rewrite after_wait_heap, run_ticks_heap, list_alter_alter_eq.
    apply list_alter_ext; [|done]. intros f' _. cbn.
    by rewrite receive_receive. }
  destruct (_get_select select self sched w) as [v w'|e w'|w']; cbn [world_of].
  - destruct Hinv as (-> & _). eauto.
  - destruct Hinv as [(-> & _)|(-> & _)]; [|by eauto].
    exists (arrived used). apply run_ticks_heap.
  - destruct Hinv as (-> & _). exists (arrived used). apply run_ticks_heap.
Qed.

(** X1: a run of [notify] calls on one object appends to its buffer the
    messages its filter keeps, in the order of the calls, and touches
    nothing else: not the other objects, the connection or the clock; when
    the filter keeps none of them the world is as it was. *)
Theorem notify_all_appends_accepted self (ms : list msg) w f :
  heap w !! self = Some f →
  let w' := notify_all self ms w in
  heap w' !! self
    = Some (set_messages f (messages f ++ List.filter (filter f) ms)) ∧
  (∀ other, other ≠ self → heap w' !! other = heap w !! other) ∧
  length (heap w') = length (heap w) ∧
  con w' = con w ∧ now w' = now w ∧
  (List.filter (filter f) ms = [] → w' = w).
Proof.
  intros Hf. cbn zeta. rewrite notify_all_world. cbn [heap con now set_heap].
  split; [by rewrite list_lookup_alter_eq, Hf|].
  split; [intros other Hne; by apply list_lookup_alter_ne|].
  split; [apply length_alter|]. split; [done|]. split; [done|].
  intros Hnone. apply world_eq; cbn; [done| |done].
  by apply (alter_receive_nothing _ _ _ f).
Qed.

(** X2: [notify] calls on two different objects commute: listeners do
    not see each other's messages. *)
Theorem notify_all_commute (a b : Ref) (ms1 ms2 : list msg) w :
  a ≠ b →
  notify_all a ms1 (notify_all b ms2 w) = notify_all b ms2 (notify_all a ms1 w).
Proof.
  intros Hne. rewrite !notify_all_world. cbn [heap set_heap].
  apply world_eq; cbn; [done| |done].
  by apply list_alter_alter_ne.
Qed.

(** X3: whatever its outcome, a getter leaves every other object as it
    was and the attributes of its own object as they were; it only ever
    extends the buffer at the end. *)
Theorem getter_touches_only_its_buffer g self sched w f :
  heap w !! self = Some f →
  let w' := world_of (call g self sched w) in
  (∀ other, other ≠ self → heap w' !! other = heap w !! other) ∧
  length (heap w') = length (heap w) ∧
  ∃ f', heap w' !! self = Some f' ∧
    messages f `prefix_of` messages f' ∧
    timeout f' = timeout f ∧ minwait f' = minwait f ∧
    sleeptime f' = sleeptime f ∧ autoclose f' = autoclose f ∧
    filter f' = filter f ∧ name f' = name f.
Proof.
  intros Hf. cbn zeta. rewrite call_get_select.
  destruct (get_select_heap (selection g) self sched w f Hf) as [ms ->].
  split; [intros other Hne; by apply list_lookup_alter_ne|].
  split; [apply length_alter|].
  exists (receive ms f). split; [by rewrite list_lookup_alter_eq, Hf|].
  split; [|done]. rewrite receive_messages. by apply prefix_app_r.
Qed.

Lemma selection_selected g (x : list msg) v :
  selection g x = inr v → selected g x v.
Proof.
  destruct g; cbn.
  - destruct x as [|m x]; [done|]. intros [= <-]. eauto.
  - destruct (last x) as [m|] eqn:Hl; [|done]. intros [= <-]. eauto.
  - by intros [= <-].
Qed.

(** X4: the value a getter returns is its selection of the buffer the
    call leaves behind: the first element for [get_first], the last for
    [get_last], the whole buffer for [get_all]. *)
Theorem getter_returns_selection_of_buffer g self sched w f v w' :
  heap w !! self = Some f →
  call g self sched w = Ok v w' →
  ∃ f', heap w' !! self = Some f' ∧ selected g (messages f') v.
Proof.
  intros Hf Hcall. rewrite call_get_select in Hcall.
  destruct (get_select_inv (selection g) self sched w f Hf) as (used & rest & _ & Hinv).
  cbn zeta in Hinv. rewrite Hcall in Hinv. destruct Hinv as (-> & Hsel & _).
  exists (receive (late sched) (receive (arrived used) f)). split.
  - rewrite after_wait_heap, list_lookup_alter_eq.
    by rewrite (run_ticks_lookup _ _ _ f).
  - apply selection_selected. rewrite receive_receive, receive_messages. done.
Qed.

(** X5: on an object that satisfies the assertion of [__init__],
    [TimeoutException] is raised on an empty buffer only: the buffer was
    empty at the call, nothing was accepted since, and the call leaves the
    store and the connection as they were, with more than [timeout] gone
    on the clock. *)
Theorem timeout_only_on_empty_buffer g self sched w f w' :
  heap w !! self = Some f →
  minwait f < timeout f →
  call g self sched w = Raise TimeoutException w' →
  messages f = [] ∧ heap w' = heap w ∧ con w' = con w ∧
  timeout f < now w' - now w.
Proof.
  intros Hf Hinit Hcall. rewrite call_get_select in Hcall.
  destruct (get_select_inv (selection g) self sched w f Hf) as (used & rest & _ & Hinv).
  cbn zeta in Hinv. rewrite Hcall in Hinv.
  destruct Hinv as [(-> & Hwait & Hexn)|(_ & Hsel & Hne & _)].
  - destruct Hexn as [[_ Hlate]|[[=] _]].
    destruct Hwait as [Hempty|?]; [|lia].
    rewrite receive_messages in Hempty.
    apply app_eq_nil in Hempty as [Hempty Hnone].
    split; [done|]. split; [|split; [apply run_ticks_con|done]].
    rewrite run_ticks_heap. by apply (alter_receive_nothing _ _ _ f).
  - exfalso. rewrite receive_messages in Hne.
    destruct (selection_nonempty g
                (messages f ++ accepted f (arrived used ++ late sched))) as [v Hv].
    + rewrite accepted_app, app_assoc. by intros [? _]%app_eq_nil.
    + congruence.
Qed.

Lemma steady_run_ticks self (step : Z) (tks : list (Tick msg)) : ∀ w,
  steady step (now w) tks →
  now w + step * Z.of_nat (length tks) ≤ now (run_ticks self tks w).
Proof.
  induction tks as [|tk tks IH]; intros w Hsteady.
  - cbn. lia.
  - destruct Hsteady as [Hnext Hsteady].
    rewrite run_ticks_cons.
    specialize (IH (sleep self tk w)). rewrite sleep_now in IH.
    specialize (IH Hsteady). cbn [length]. lia.
Qed.

(** X6: a getter does not sleep for ever, whatever arrives: on a clock
    on which every sleep lets at least [sleeptime] pass, it has returned or
    raised once the sleeps add up to more than [timeout]. *)
Theorem getter_ends_on_steady_clock g self sched w f :
  heap w !! self = Some f →
  steady (sleeptime f) (now w) (ticks sched) →
  timeout f < sleeptime f * Z.of_nat (length (ticks sched)) →
  ∀ w', call g self sched w ≠ Blocked w'.
Proof.
  intros Hf Hsteady Hlong w' Hcall. rewrite call_get_select in Hcall.
  destruct (get_select_inv (selection g) self sched w f Hf)
    as (used & rest & Hsplit & Hinv).
  cbn zeta in Hinv. rewrite Hcall in Hinv.
  destruct Hinv as (_ & -> & _ & Hintime & _).
  rewrite app_nil_r in Hsplit. subst used.
  pose proof (steady_run_ticks self _ _ w Hsteady). lia.
Qed.

(** The buffer a getter starts from is the head of the buffer it selects
    from. *)
Lemma getter_ok_buffer g self sched w f v w' :
  heap w !! self = Some f →
  call g self sched w = Ok v w' →
  ∃ more, selection g (messages f ++ accepted f more) = inr v ∧
          heap w' !! self = Some (receive more f).
Proof.
  intros Hf Hcall. rewrite call_get_select in Hcall.
  destruct (get_select_inv (selection g) self sched w f Hf) as (used & rest & _ & Hinv).
  cbn zeta in Hinv. rewrite Hcall in Hinv. destruct Hinv as (-> & Hsel & _).
  exists (arrived used ++ late sched). split; [done|].
  rewrite after_wait_heap, list_lookup_alter_eq.
  rewrite (run_ticks_lookup _ _ _ f) by done. cbn.
  by rewrite receive_receive.
Qed.

(** X7: the buffer is never cleared, so [get_first] keeps its answer:
    a later call on the same object, whatever [notify] received in
    between, returns the same message if it returns. *)
Theorem get_first_is_stable self sched1 sched2 (between : list msg) w f m v w1 w2 :
  heap w !! self = Some f →
  get_first self sched1 w = Ok (VMsg m) w1 →
  get_first self sched2 (notify_all self between w1) = Ok v w2 →
  v = VMsg m.
Proof.
  intros Hf Hfirst Hsecond.
  destruct (getter_ok_buffer GetFirst self sched1 w f _ _ Hf Hfirst)
    as (more1 & Hsel1 & Hf1).
  pose proof (notify_all_lookup self between w1 _ Hf1) as Hf1'.
  destruct (getter_ok_buffer GetFirst self sched2 _ _ _ _ Hf1' Hsecond)
    as (more2 & Hsel2 & _).
  rewrite !receive_messages in Hsel2. cbn in Hsel1, Hsel2.
  destruct (messages f ++ accepted f more1) as [|m0 l]; [done|].
  cbn in Hsel2. congruence.
Qed.

(** X8: what [get_all] returns only grows: the buffer at the call is a
    prefix of it, and a later [get_all] returns the earlier list followed by
    the messages the filter kept among those handed over since. *)
Theorem get_all_only_grows self sched1 sched2 (between : list msg) w f l1 l2 w1 w2 :
  heap w !! self = Some f →
  get_all self sched1 w = Ok (VList l1) w1 →
  get_all self sched2 (notify_all self between w1) = Ok (VList l2) w2 →
  messages f `prefix_of` l1 ∧
  ∃ used rest, ticks sched2 = used ++ rest ∧
    l2 = l1 ++ List.filter (filter f) (between ++ arrived used ++ late sched2).
Proof.
  intros Hf Hfirst Hsecond.
  destruct (getter_ok_buffer GetAll self sched1 w f _ _ Hf Hfirst)
    as (more1 & Hsel1 & Hf1).
  cbn in Hsel1. injection Hsel1 as <-.
  split; [by apply prefix_app_r|].
  pose proof (notify_all_lookup self between w1 _ Hf1) as Hf1'.
  change get_all with (call (msg:=msg) GetAll) in Hsecond.
  rewrite call_get_select in Hsecond.
  destruct (get_select_inv (selection GetAll) self sched2 _ _ Hf1')
    as (used & rest & Hsplit & Hinv).
  cbn zeta in Hinv. rewrite Hsecond in Hinv. destruct Hinv as (_ & Hsel & _).
  exists used, rest. split; [done|].
  cbn in Hsel. injection Hsel as <-.
  fold (accepted f more1) (accepted f between)
       (accepted f (arrived used ++ late sched2))
       (accepted f (between ++ arrived used ++ late sched2)).
  by rewrite (accepted_app f between), app_assoc.
Qed.

Lemma well_formed_alter_receive self ms w :
  well_formed w → Forall (λ f, minwait f < timeout f) (alter (receive ms) self (heap w)).
Proof. intros Hwf. apply Forall_alter; [done|]. by intros f _ ?. Qed.

(** X9: [minwait < timeout], asserted by [__init__], holds for every
    object of the store for good: [notify], [close], the getters, a further
    construction and the factory (around a request function that keeps it)
    preserve it. *)
Theorem minwait_below_timeout_is_invariant self w :
  well_formed w →
  (∀ m, well_formed (notify self m w)) ∧
  well_formed (world_of (close self w)) ∧
  (∀ g sched, well_formed (world_of (call g self sched w))) ∧
  (∀ kw, well_formed (world_of (Future_init kw w))) ∧
  (∀ (A : Type) msgTypes flt (requestFct : A → M msg unit) reqValues kw,
     (∀ w0, well_formed w0 → well_formed (world_of (requestFct reqValues w0))) →
     well_formed (world_of (create_filtered msgTypes flt requestFct reqValues kw w))).
Proof.
  intros Hwf.
  assert (Hinit : ∀ kw, well_formed (world_of (Future_init kw w))).
  { intros kw. unfold Future_init.
    destruct (Z.ltb_spec (arg_minwait kw) (arg_timeout kw)); [|done].
    unfold well_formed. cbn. apply Forall_app. split; [done|].
    by apply Forall_singleton. }
  split; [|split; [|split; [|split]]].
  - intros m. unfold well_formed. cbn. apply Forall_alter; [done|].
    intros f _ ?. unfold notify_obj. by destruct (negb (filter f m)).
  - done.
  - intros g sched. rewrite call_get_select.
    destruct (heap w !! self) as [f|] eqn:Hf.
    + destruct (get_select_heap (selection g) self sched w f Hf) as [ms Hheap].
      unfold well_formed. rewrite Hheap. by apply well_formed_alter_receive.
    + rewrite get_select_unfold.
      destruct (ticks sched); cbn [wait_loop]; by rewrite Hf.
  - done.
  - intros A msgTypes flt requestFct reqValues kw Hreq.
    destruct (Z.ltb_spec (arg_minwait kw) (arg_timeout kw)) as [Hgood|Hbad].
    + rewrite create_filtered_unfold by done. unfold bind.
      assert (Hwf' : well_formed (registered_world msgTypes flt kw w)).
      { unfold well_formed, registered_world. cbn. apply Forall_app.
        split; [done|]. by apply Forall_singleton. }
      specialize (Hreq _ Hwf').
      by destruct (requestFct reqValues (registered_world msgTypes flt kw w)).
    + unfold create_filtered, bind, Future_init.
      destruct (Z.ltb_spec (arg_minwait kw) (arg_timeout kw)); [lia|done].
Qed.

Lemma create_filtered_ok {A : Type} (msgTypes : MsgTypes) (flt : option (msg → bool))
      (requestFct : A → M msg unit) (reqValues : A) (kw : KeyValues) w r w' :
  create_filtered msgTypes flt requestFct reqValues kw w = Ok r w' →
  arg_minwait kw < arg_timeout kw ∧ r = length (heap w) ∧
  requestFct reqValues (registered_world msgTypes flt kw w) = Ok tt w'.
Proof.
  intros Hcreate.
  destruct (Z.ltb_spec (arg_minwait kw) (arg_timeout kw)) as [Hgood|Hbad].
  - rewrite create_filtered_unfold in Hcreate by done. unfold bind, ret in Hcreate.
    destruct (requestFct reqValues (registered_world msgTypes flt kw w))
      as [[] w1|e w1|w1]; [|done..].
    by injection Hcreate as <- <-.
  - unfold create_filtered, bind, Future_init in Hcreate.
    by destruct (Z.ltb_spec (arg_minwait kw) (arg_timeout kw)); [lia|].
Qed.

(** X10: a factory call that returns has built a new object, at a
    reference that denoted nothing before, with an empty buffer and
    [minwait < timeout]; the request function returned normally, in a world
    that holds the new object and every earlier object unchanged. *)
Theorem factory_returns_fresh_listener {A : Type}
        (msgTypes : MsgTypes) (flt : option (msg → bool))
        (requestFct : A → M msg unit) (reqValues : A) (kw : KeyValues) w r w' :
  create_filtered msgTypes flt requestFct reqValues kw w = Ok r w' →
  heap w !! r = None ∧
  minwait (built_future msgTypes flt kw) < timeout (built_future msgTypes flt kw) ∧
  requestFct reqValues (registered_world msgTypes flt kw w) = Ok tt w' ∧
  heap (registered_world msgTypes flt kw w) !! r
    = Some (built_future msgTypes flt kw) ∧
  messages (built_future msgTypes flt kw) = [] ∧
  (∀ i fi, heap w !! i = Some fi →
           heap (registered_world msgTypes flt kw w) !! i = Some fi).
Proof.
  intros (Hgood & -> & Hreq)%create_filtered_ok.
  split; [by apply lookup_ge_None_2|]. split; [done|]. split; [done|].
  split; [unfold registered_world; cbn; by rewrite list_lookup_middle|].
  split; [done|].
  intros i fi Hi. unfold registered_world. cbn. by apply lookup_app_l_Some.
Qed.

(** X11: the factory can be used again: after a first call whose
    request function left the store alone, a second call returns the next
    reference, and both listeners are in the store when its request
    function runs. *)
Theorem factory_is_reusable {A B : Type}
        (msgTypes1 msgTypes2 : MsgTypes) (flt1 flt2 : option (msg → bool))
        (requestFct1 : A → M msg unit) (reqValues1 : A)
        (requestFct2 : B → M msg unit) (reqValues2 : B)
        (kw1 kw2 : KeyValues) w r1 w1 r2 w2 :
  create_filtered msgTypes1 flt1 requestFct1 reqValues1 kw1 w = Ok r1 w1 →
  heap w1 = heap (registered_world msgTypes1 flt1 kw1 w) →
  create_filtered msgTypes2 flt2 requestFct2 reqValues2 kw2 w1 = Ok r2 w2 →
  r2 = S r1 ∧
  heap (registered_world msgTypes2 flt2 kw2 w1) !! r1
    = Some (built_future msgTypes1 flt1 kw1) ∧
  heap (registered_world msgTypes2 flt2 kw2 w1) !! r2
    = Some (built_future msgTypes2 flt2 kw2).
Proof.
  intros (_ & -> & _)%create_filtered_ok Hstore (_ & -> & _)%create_filtered_ok.
  rewrite Hstore. unfold registered_world. cbn. rewrite Hstore. cbn.
  split; [rewrite length_app; cbn; lia|]. split.
  - apply lookup_app_l_Some. by rewrite list_lookup_middle.
  - by rewrite list_lookup_middle.
Qed.

(** X12: [name] raises [NotImplementedError] on an object that
    [__init__] alone has set up; on an object the factory returns it gives
    the [msgTypes] of the factory call, also after any getter call. *)
Theorem name_needs_the_factory {A : Type}
        (msgTypes : MsgTypes) (flt : option (msg → bool))
        (requestFct : A → M msg unit) (reqValues : A) (kw : KeyValues)
        g sched w r w1 :
  create_filtered msgTypes flt requestFct reqValues kw w = Ok r w1 →
  heap w1 = heap (registered_world msgTypes flt kw w) →
  Future_name r (world_of (Future_init kw w))
    = Raise NotImplementedError (world_of (Future_init kw w)) ∧
  Future_name r w1 = Ok msgTypes w1 ∧
  let w' := world_of (call g r sched w1) in
  Future_name r w' = Ok msgTypes w'.
Proof.
  intros (Hgood & -> & _)%create_filtered_ok Hstore.
  assert (Hf : heap w1 !! length (heap w) = Some (built_future msgTypes flt kw)).
  { rewrite Hstore. unfold registered_world. cbn. by rewrite list_lookup_middle. }
  split; [|split].
  - unfold Future_init.
    destruct (Z.ltb_spec (arg_minwait kw) (arg_timeout kw)); [|lia].
    unfold Future_name, bind, get_obj. cbn. by rewrite list_lookup_middle.
  - unfold Future_name, bind, get_obj. by rewrite Hf.
  - cbn zeta. rewrite call_get_select.
    destruct (get_select_heap (selection g) _ sched _ _ Hf) as [ms Hheap].
    unfold Future_name, bind, get_obj. rewrite Hheap.
    rewrite list_lookup_alter_eq, Hf. done.
Qed.




End Further.

(** * The further properties on the scenario *)

Lemma notify_all_appends_accepted_witness :
  heap (notify_all 1 ["Y"; "X1"; "Z"; "X2"]%string ex_two_listeners) !! 1%nat
    = Some (set_messages ex_second_listener ["X1"; "X2"]%string) ∧
  heap (notify_all 1 ["Y"; "X1"; "Z"; "X2"]%string ex_two_listeners) !! 0%nat
    = Some ex_listener.
Proof.
  destruct (notify_all_appends_accepted 1 ["Y"; "X1"; "Z"; "X2"]%string
              ex_two_listeners ex_second_listener)
    as (Hself & Hother & _); [reflexivity|].
  split; [exact Hself|]. rewrite Hother; [reflexivity|discriminate].
Defined.

Lemma notify_all_commute_witness :
  notify_all 0 ["A"]%string (notify_all 1 ["X1"]%string ex_two_listeners)
  = notify_all 1 ["X1"]%string (notify_all 0 ["A"]%string ex_two_listeners).
Proof. apply notify_all_commute. discriminate. Defined.

Lemma getter_touches_only_its_buffer_witness :
  heap (world_of (call GetAll 0 ex_burst ex_two_listeners)) !! 1%nat
    = Some ex_second_listener ∧
  length (heap (world_of (call GetAll 0 ex_burst ex_two_listeners))) = 2%nat.
Proof.
  destruct (getter_touches_only_its_buffer GetAll 0 ex_burst ex_two_listeners
              ex_listener) as (Hother & Hlen & _); [reflexivity|].
  split; [rewrite Hother; [reflexivity|discriminate]|exact Hlen].
Defined.

Lemma getter_returns_selection_of_buffer_witness :
  ∃ f', heap (world_of (call GetLast 0 ex_burst ex_world)) !! 0%nat = Some f' ∧
        selected GetLast (messages f') (VMsg "B"%string).
Proof.
  apply (getter_returns_selection_of_buffer GetLast 0 ex_burst ex_world
           ex_listener); reflexivity.
Defined.

Lemma timeout_only_on_empty_buffer_witness :
  messages ex_short_listener = [] ∧
  heap (run_ticks 0 (ticks ex_silence_past_timeout) ex_short_world)
    = heap ex_short_world.
Proof.
  destruct (timeout_only_on_empty_buffer GetFirst 0 ex_silence_past_timeout
              ex_short_world ex_short_listener
              (run_ticks 0 (ticks ex_silence_past_timeout) ex_short_world))
    as (Hempty & Hheap & _); [reflexivity|reflexivity|reflexivity|].
  split; [exact Hempty|exact Hheap].
Defined.

Lemma getter_ends_on_steady_clock_witness :
  match call GetAll 0 ex_long_silence ex_world with
  | Blocked _ => False
  | _ => True
  end.
Proof.
  destruct (call GetAll 0 ex_long_silence ex_world) as [v w'|e w'|w'] eqn:Hcall;
    [exact I|exact I|].
  apply (getter_ends_on_steady_clock GetAll 0 ex_long_silence ex_world
           ex_listener) with w'.
  - reflexivity.
  - cbn. repeat split; lia.
  - reflexivity.
  - exact Hcall.
Defined.

Lemma get_first_is_stable_witness :
  match get_first 0 ex_later
          (notify_all 0 ["Q"]%string (world_of (get_first 0 ex_burst ex_world)))
  with
  | Ok v _ => v = VMsg "A"%string
  | _ => False
  end.
Proof.
  assert (Hstable :
    VMsg "A"%string = VMsg "A"%string :> value string).
  { apply (get_first_is_stable 0 ex_burst ex_later ["Q"]%string ex_world
             ex_listener "A"%string (VMsg "A"%string)
             (world_of (get_first 0 ex_burst ex_world))
             (world_of (get_first 0 ex_later
                (notify_all 0 ["Q"]%string
                   (world_of (get_first 0 ex_burst ex_world))))));
      reflexivity. }
  exact Hstable.
Defined.

Lemma get_all_only_grows_witness :
  ∃ used rest, ticks ex_later = used ++ rest ∧
    ["A"; "B"; "Q"; "A"]%string =
    ["A"; "B"]%string ++
    List.filter (filter ex_listener)
                (["Q"]%string ++ arrived used ++ late ex_later).
Proof.
  apply (get_all_only_grows 0 ex_burst ex_later ["Q"]%string ex_world
           ex_listener ["A"; "B"]%string ["A"; "B"; "Q"; "A"]%string
           (world_of (get_all 0 ex_burst ex_world))
           (world_of (get_all 0 ex_later
              (notify_all 0 ["Q"]%string (world_of (get_all 0 ex_burst ex_world))))));
    reflexivity.
Defined.

Lemma minwait_below_timeout_is_invariant_witness :
  well_formed (world_of (call GetAll 0 ex_burst ex_two_listeners)) ∧
  well_formed (notify 1 "X1"%string ex_two_listeners).
Proof.
  destruct (minwait_below_timeout_is_invariant 0 ex_two_listeners)
    as (_ & _ & Hget & _); [repeat constructor|].
  destruct (minwait_below_timeout_is_invariant 1 ex_two_listeners)
    as (Hnotify & _); [repeat constructor|].
  split; [apply Hget|apply Hnotify].
Defined.

Lemma factory_returns_fresh_listener_witness :
  heap ex_world !! 1%nat = None ∧
  heap ex_two_listeners !! 1%nat = Some ex_second_listener.
Proof.
  destruct (factory_returns_fresh_listener (OneType "orderStatus"%string)
              (Some only_X) ex_request tt ex_short_keyvalues ex_world
              1%nat ex_two_listeners)
    as (Hfresh & _ & _ & Hnew & _); [reflexivity|].
  split; [exact Hfresh|exact Hnew].
Defined.

Lemma factory_is_reusable_witness :
  heap ex_two_listeners !! 0%nat = Some ex_listener ∧
  heap ex_two_listeners !! 1%nat = Some ex_second_listener.
Proof.
  destruct (factory_is_reusable ex_types (OneType "orderStatus"%string)
              None (Some only_X) ex_request tt ex_request tt
              ex_keyvalues ex_short_keyvalues
              ex_empty_world 0%nat ex_world 1%nat ex_two_listeners)
    as (_ & Hfirst & Hsecond); [reflexivity|reflexivity|reflexivity|].
  split; [exact Hfirst|exact Hsecond].
Defined.

Lemma name_needs_the_factory_witness :
  Future_name 0 ex_filtered_world = Ok ex_types ex_filtered_world ∧
  Future_name 0 (world_of (Future_init ex_keyvalues ex_empty_world))
    = Raise NotImplementedError (world_of (Future_init ex_keyvalues ex_empty_world)).
Proof.
  destruct (name_needs_the_factory ex_types (Some only_X) ex_request tt
              ex_keyvalues GetAll ex_burst ex_empty_world 0%nat ex_filtered_world)
    as (Hbare & Hnamed & _); [reflexivity|reflexivity|].
  split; [exact Hnamed|exact Hbare].
Defined.
